(** * Session pairing and signal relay of the QR-code camera signaling server

    A shallow embedding of the Socket.IO handlers of the server
    ([create-session], [join-session], [signal], [disconnect] and the
    expiry callback armed by [create-session]) and the properties of the
    pairing state machine that the specification states about them.

    The server is single threaded: every handler runs to completion, so a
    handler is a function from the state before to the state after,
    together with the messages it emits, in emission order.  What the
    source takes from its environment is an argument of the handler: the
    id of the socket the event arrived on, the identifier returned by
    [uuidv4()] and the value of [Date.now()].  [console.log] calls are not
    modelled. *)

From stdpp Require Import gmap strings list fin_maps.

Open Scope string_scope.
Open Scope list_scope.

(** ** Values *)

(** [socket.id]: the transport's identifier of a connection (Socket.IO
    generates a non-empty string). *)
Definition handle := string.

(** The [signal] member of a [signal] event: never inspected. *)
Definition payload := string.

(** What [setTimeout] returns and [clearTimeout] takes. *)
Definition timer_id := nat.

(** JavaScript truthiness of a value that is [null] or a string, as used
    by [if (targetId)] and [!session.mobile]: [null] and the empty string
    are falsy. *)
Definition truthy (v : option handle) : bool :=
  match v with
  | None => false
  | Some s => negb (bool_decide (s = EmptyString))
  end.

(** Socket.IO never hands out an empty socket id. *)
Definition valid_handle (h : handle) : Prop := h <> EmptyString.

(** An element of [session.pendingSignals]: [{ targetId, data: signal }]. *)
Record pending_signal := PendingSignal {
  targetId : option handle;
  data : payload
}.

(** The object stored in [sessions] by [create-session]. *)
Record session := Session {
  desktop : handle;
  mobile : option handle;
  ready : bool;
  pendingSignals : list pending_signal;
  created : Z;
  timeout : timer_id
}.

(** ** The [sessions] Map

    A JavaScript [Map] iterates in insertion order and the [disconnect]
    handler depends on that order, so the registry is an association list
    in insertion order.  [set] on a key that is present replaces the value
    where it stands; on a new key it appends. *)
Module JsMap.

Definition t := list (string * session).

Fixpoint get (k : string) (m : t) : option session :=
  match m with
  | [] => None
  | (k', v) :: m' => if bool_decide (k' = k) then Some v else get k m'
  end.

Definition has (k : string) (m : t) : bool :=
  match get k m with Some _ => true | None => false end.

Fixpoint set (k : string) (v : session) (m : t) : t :=
  match m with
  | [] => [(k, v)]
  | (k', v') :: m' =>
      if bool_decide (k' = k) then (k', v) :: m' else (k', v') :: set k v m'
  end.

Fixpoint delete (k : string) (m : t) : t :=
  match m with
  | [] => []
  | (k', v') :: m' =>
      if bool_decide (k' = k) then delete k m' else (k', v') :: delete k m'
  end.

Definition keys (m : t) : list string := m.*1.

Definition size (m : t) : nat := length m.

End JsMap.

(** ** Outbound messages *)

Inductive message :=
  | SessionCreated (sessionId : string)
  | SessionNotFound
  | MobileConnected
  | ConnectionSuccessful
  | SignalMsg (signal : payload)
  | PeerDisconnected
  | SessionTimeout.

(** One [emit]: the room it is addressed to and the message.  The room of
    [io.to(x).emit(..)] is [x], which the source may pass as [null];
    [socket.emit(..)] addresses the socket itself, which is the room named
    by its own id. *)
Record emission := Emit {
  room : option handle;
  msg : message
}.

Definition io_to_emit (x : option handle) (m : message) : emission := Emit x m.
Definition socket_emit (socket_id : handle) (m : message) : emission :=
  Emit (Some socket_id) m.

(** ** Server state *)

(** [const SESSION_TIMEOUT = 60000]. *)
Definition SESSION_TIMEOUT : Z := 60000.

(** A timer that is armed: the [sessionId] its callback closes over and
    the delay it was armed with. *)
Record timer := Timer {
  cb_session : string;
  delay : Z
}.

(** The [sessions] Map, the timers of the runtime that are armed, and the
    next timer identifier the runtime hands out. *)
Record state := State {
  sessions : JsMap.t;
  timers : gmap timer_id timer;
  next_timer : timer_id
}.

Definition init : state := State [] ∅ 0.

Definition with_sessions (m : JsMap.t) (st : state) : state :=
  State m (timers st) (next_timer st).

(** [setTimeout(callback, ms)], the callback being the expiry callback of
    [sessionId]. *)
Definition setTimeout (sessionId : string) (ms : Z) (st : state)
  : timer_id * state :=
  (next_timer st,
   State (sessions st)
         (<[next_timer st := Timer sessionId ms]> (timers st))
         (S (next_timer st))).

(** Timer [t] is armed no more; the Map is left alone. *)
Definition disarm (t : timer_id) (st : state) : state :=
  State (sessions st) (base.delete t (timers st)) (next_timer st).

(** [clearTimeout(t)]: a timer that is not armed is left alone. *)
Definition clearTimeout (t : timer_id) (st : state) : state := disarm t st.

(** ** Handlers *)

(** The callback passed to [setTimeout] in [create-session]. *)
Definition session_timeout_callback (sessionId : string) (st : state)
  : state * list emission :=
  if JsMap.has sessionId (sessions st) then
    match JsMap.get sessionId (sessions st) with
    | Some session =>
        if negb (truthy (mobile session)) then
          (with_sessions (JsMap.delete sessionId (sessions st)) st,
           [io_to_emit (Some (desktop session)) SessionTimeout])
        else (st, [])
    | None => (st, [])
    end
  else (st, []).

(** [socket.on('create-session', ...)]. *)
Definition create_session (socket_id : handle) (uuid : string) (now : Z)
    (st : state) : state * list emission :=
  let sessionId := uuid in
  let '(t, st1) := setTimeout sessionId SESSION_TIMEOUT st in
  let session :=
    {| desktop := socket_id; mobile := None; ready := false;
       pendingSignals := []; created := now; timeout := t |} in
  (with_sessions (JsMap.set sessionId session (sessions st1)) st1,
   [socket_emit socket_id (SessionCreated sessionId)]).

(** The [forEach] over [session.pendingSignals] in [join-session]. *)
Definition flush_pending (ps : list pending_signal) : list emission :=
  map (fun signal => io_to_emit (targetId signal) (SignalMsg (data signal))) ps.

(** [socket.on('join-session', ...)]. *)
Definition join_session (socket_id : handle) (sessionId : string)
    (st : state) : state * list emission :=
  if JsMap.has sessionId (sessions st) then
    match JsMap.get sessionId (sessions st) with
    | Some session =>
        let st1 := clearTimeout (timeout session) st in
        let joined :=
          {| desktop := desktop session; mobile := Some socket_id;
             ready := true; pendingSignals := pendingSignals session;
             created := created session; timeout := timeout session |} in
        let notify :=
          [io_to_emit (Some (desktop joined)) MobileConnected;
           socket_emit socket_id ConnectionSuccessful] in
        if (0 <? length (pendingSignals joined))%nat then
          let flushed :=
            {| desktop := desktop joined; mobile := mobile joined;
               ready := ready joined; pendingSignals := [];
               created := created joined; timeout := timeout joined |} in
          (with_sessions (JsMap.set sessionId flushed (sessions st1)) st1,
           notify ++ flush_pending (pendingSignals joined))
        else
          (with_sessions (JsMap.set sessionId joined (sessions st1)) st1,
           notify)
    | None => (st, [])
    end
  else (st, [socket_emit socket_id SessionNotFound]).

(** [socket.on('signal', ...)]. *)
Definition relay_signal (socket_id : handle) (sessionId : string)
    (signal : payload) (st : state) : state * list emission :=
  if JsMap.has sessionId (sessions st) then
    match JsMap.get sessionId (sessions st) with
    | Some session =>
        let target :=
          if bool_decide (socket_id = desktop session)
          then mobile session else Some (desktop session) in
        if negb (ready session) then
          let buffered :=
            {| desktop := desktop session; mobile := mobile session;
               ready := ready session;
               pendingSignals :=
                 pendingSignals session ++ [PendingSignal target signal];
               created := created session; timeout := timeout session |} in
          (with_sessions (JsMap.set sessionId buffered (sessions st)) st, [])
        else if truthy target then
          (st, [io_to_emit target (SignalMsg signal)])
        else (st, [])
    | None => (st, [])
    end
  else (st, []).

(** The test of the [disconnect] loop:
    [session.desktop === socket.id || session.mobile === socket.id]. *)
Definition involves (socket_id : handle) (session : session) : bool :=
  bool_decide (desktop session = socket_id)
  || bool_decide (mobile session = Some socket_id).

(** The [for ... of sessions.entries()] loop of [disconnect] up to its
    [break]: the first entry, in insertion order, that involves the
    socket. *)
Fixpoint disconnect_scan (socket_id : handle) (entries : JsMap.t)
  : option (string * session) :=
  match entries with
  | [] => None
  | (sessionId, session) :: rest =>
      if involves socket_id session then Some (sessionId, session)
      else disconnect_scan socket_id rest
  end.

(** [socket.on('disconnect', ...)]. *)
Definition handle_disconnect (socket_id : handle) (st : state)
  : state * list emission :=
  match disconnect_scan socket_id (sessions st) with
  | Some (sessionId, session) =>
      let target :=
        if bool_decide (socket_id = desktop session)
        then mobile session else Some (desktop session) in
      (with_sessions (JsMap.delete sessionId (sessions st)) st,
       if truthy target then [io_to_emit target PeerDisconnected] else [])
  | None => (st, [])
  end.

(** The runtime runs the callback of an armed timer once and disarms it; a
    timer that was cleared or has already run does nothing. *)
Definition timer_fired (t : timer_id) (st : state) : state * list emission :=
  match timers st !! t with
  | Some tm =>
      session_timeout_callback (cb_session tm) (disarm t st)
  | None => (st, [])
  end.

(** ** The event stream *)

Inductive event :=
  | CreateSession (socket_id : handle) (uuid : string) (now : Z)
  | JoinSession (socket_id : handle) (sessionId : string)
  | Signal (socket_id : handle) (sessionId : string) (signal : payload)
  | Disconnect (socket_id : handle)
  | TimerFired (t : timer_id).

Definition step (e : event) (st : state) : state * list emission :=
  match e with
  | CreateSession socket_id uuid now => create_session socket_id uuid now st
  | JoinSession socket_id sessionId => join_session socket_id sessionId st
  | Signal socket_id sessionId signal =>
      relay_signal socket_id sessionId signal st
  | Disconnect socket_id => handle_disconnect socket_id st
  | TimerFired t => timer_fired t st
  end.

(** Events handled one after the other; the emissions are concatenated. *)
Fixpoint run (es : list event) (st : state) : state * list emission :=
  match es with
  | [] => (st, [])
  | e :: es' =>
      let '(st1, out1) := step e st in
      let '(st2, out2) := run es' st1 in
      (st2, out1 ++ out2)
  end.

Definition reachable (st : state) : Prop :=
  exists es, (run es init).1 = st.

(** ** Abbreviations used in the statements *)

(** The session a successful [join-session] leaves in the Map. *)
Definition joined_by (socket_id : handle) (s : session) : session :=
  {| desktop := desktop s; mobile := Some socket_id; ready := true;
     pendingSignals := []; created := created s; timeout := timeout s |}.

(** The session a buffering [signal] leaves in the Map. *)
Definition buffering (target : option handle) (signal : payload)
    (s : session) : session :=
  {| desktop := desktop s; mobile := mobile s; ready := ready s;
     pendingSignals := pendingSignals s ++ [PendingSignal target signal];
     created := created s; timeout := timeout s |}.

(** [socket.id === session.desktop ? session.mobile : session.desktop],
    the target both [signal] and [disconnect] compute. *)
Definition other_side (socket_id : handle) (s : session) : option handle :=
  if bool_decide (socket_id = desktop s) then mobile s else Some (desktop s).

(** ** Well-formed states

    What every state the server can be in satisfies: the keys of the Map
    are distinct, timer identifiers are handed out in increasing order, and
    the timer a session stores, while it is armed, is the one whose callback
    closes over that session's key. *)
Record wf (st : state) : Prop := Wf {
  wf_keys : NoDup (JsMap.keys (sessions st));
  wf_armed : forall t tm, timers st !! t = Some tm -> t < next_timer st;
  wf_timeout : forall k x, (k, x) ∈ sessions st -> timeout x < next_timer st;
  wf_owner : forall k x tm,
    (k, x) ∈ sessions st -> timers st !! timeout x = Some tm ->
    cb_session tm = k
}.

(** [uuidv4()] returns an identifier that is in use nowhere: no entry of
    the Map has it as key and no armed timer closes over it. *)
Definition fresh_uuid (sid : string) (st : state) : Prop :=
  JsMap.get sid (sessions st) = None /\
  forall t tm, timers st !! t = Some tm -> cb_session tm <> sid.

(** An event that neither joins session [sid], nor disconnects its desktop
    [A], nor is the expiry [t] of the session, nor a [create-session] for
    which [uuidv4()] returned [sid] again. *)
Definition quiet (A : handle) (sid : string) (t : timer_id) (e : event)
  : Prop :=
  match e with
  | CreateSession _ uuid _ => uuid <> sid
  | JoinSession _ sessionId => sessionId <> sid
  | Signal _ _ _ => True
  | Disconnect socket_id => socket_id <> A
  | TimerFired t' => t' <> t
  end.

(** Session [sid] of desktop [A] is registered and has no mobile, and its
    expiry [t] is armed and is the only armed timer that closes over
    [sid]. *)
Definition awaiting (A : handle) (sid : string) (t : timer_id) (st : state)
  : Prop :=
  (exists s,
     JsMap.get sid (sessions st) = Some s /\ desktop s = A /\ mobile s = None) /\
  (exists tm, timers st !! t = Some tm /\ cb_session tm = sid) /\
  (forall t' tm, timers st !! t' = Some tm -> cb_session tm = sid -> t' = t).

(** An event other than a [create-session] for which [uuidv4()] returned
    [sid]. *)
Definition not_reissued (sid : string) (e : event) : Prop :=
  match e with
  | CreateSession _ uuid _ => uuid <> sid
  | _ => True
  end.

(** An event after which a session [sid] that has a mobile attached still
    has one, if it is still registered: [uuidv4()] does not return [sid]
    again and the socket of a [join-session] has a non-empty id. *)
Definition keeps_joined (sid : string) (e : event) : Prop :=
  match e with
  | CreateSession _ uuid _ => uuid <> sid
  | JoinSession socket_id _ => valid_handle socket_id
  | _ => True
  end.

(** The [signal] events of the sockets and payloads of [sigs] on session
    [sid], in the order of [sigs]. *)
Definition signals_on (sid : string) (sigs : list (handle * payload))
  : list event :=
  map (fun hp => Signal hp.1 sid hp.2) sigs.

(** What the [signal] handler appends to the buffer of session [s] for the
    sockets and payloads of [sigs]. *)
Definition buffered_for (s : session) (sigs : list (handle * payload))
  : list pending_signal :=
  map (fun hp => PendingSignal (other_side hp.1 s) hp.2) sigs.

(** ** The HTTP endpoints *)

(** The body [GET /health] answers with:
    [{ status: 'ok', sessions: sessions.size }]. *)
Record health_body := HealthBody {
  health_status : string;
  health_sessions : nat
}.

(** The body [GET /] answers with:
    [{ name: .., status: 'running', activeSessions: sessions.size }]. *)
Record info_body := InfoBody {
  info_name : string;
  info_status : string;
  info_activeSessions : nat
}.

(** [app.get('/health', ...)]: the status code and the body.  The handler
    reads the Map and writes nothing. *)
Definition health (st : state) : nat * health_body :=
  (200, HealthBody "ok" (JsMap.size (sessions st))).

(** [app.get('/', ...)]. *)
Definition root_info (st : state) : nat * info_body :=
  (200, InfoBody "QR Code Camera Signaling Server" "running"
                 (JsMap.size (sessions st))).

(** The number of [create-session] events of a trace. *)
Fixpoint count_creates (es : list event) : nat :=
  match es with
  | [] => 0
  | CreateSession _ _ _ :: es' => S (count_creates es')
  | _ :: es' => count_creates es'
  end.

(** ** What the fields of a registered session tell

    A session that is not ready has no mobile and its expiry is armed, with
    the delay [SESSION_TIMEOUT] and closing over the session's key; a
    session that is ready has a mobile, an empty buffer and no armed
    expiry; a buffered signal is addressed to [null] or to the desktop. *)
Record coherent (st : state) : Prop := Coherent {
  coh_unready : forall k x,
    (k, x) ∈ sessions st -> ready x = false ->
    mobile x = None /\
    timers st !! timeout x = Some (Timer k SESSION_TIMEOUT);
  coh_ready : forall k x,
    (k, x) ∈ sessions st -> ready x = true ->
    mobile x <> None /\ pendingSignals x = [] /\
    timers st !! timeout x = None;
  coh_targets : forall k x e,
    (k, x) ∈ sessions st -> e ∈ pendingSignals x ->
    targetId e = None \/ targetId e = Some (desktop x)
}.

(** * Properties *)

(** ** The [sessions] Map *)

Module JsMapFacts.
Import JsMap.

Lemma has_true k m : has k m = true <-> is_Some (get k m).
Proof.
  unfold has. destruct (get k m) as [v|]; split; done.
Qed.

Lemma has_false k m : has k m = false <-> get k m = None.
Proof. unfold has. by destruct (get k m). Qed.

Lemma get_set_eq k v m : get k (set k v m) = Some v.
Proof.
  induction m as [|[k' v'] m IH]; simpl.
  - by rewrite bool_decide_eq_true_2.
  - case_bool_decide as Hk; simpl.
    + by rewrite bool_decide_eq_true_2.
    + by rewrite bool_decide_eq_false_2.
Qed.

Lemma get_set_ne k k' v m : k <> k' -> get k' (set k v m) = get k' m.
Proof.
  intros Hne. induction m as [|[k0 v0] m IH]; simpl.
  - by rewrite bool_decide_eq_false_2.
  - case_bool_decide as Hk; simpl.
    + subst k0. by rewrite !bool_decide_eq_false_2.
    + by rewrite IH.
Qed.

Lemma get_delete_eq k m : get k (delete k m) = None.
Proof.
  induction m as [|[k' v'] m IH]; simpl; [done|].
  case_bool_decide as Hk; simpl; [done|].
  by rewrite bool_decide_eq_false_2.
Qed.

Lemma get_delete_ne k k' m : k <> k' -> get k' (delete k m) = get k' m.
Proof.
  intros Hne. induction m as [|[k0 v0] m IH]; simpl; [done|].
  case_bool_decide as Hk; simpl.
  - subst k0. by rewrite bool_decide_eq_false_2.
  - by rewrite IH.
Qed.

Lemma get_Some_elem_of k v m : get k m = Some v -> (k, v) ∈ m.
Proof.
  induction m as [|[k' v'] m IH]; simpl; [done|].
  case_bool_decide as Hk.
  - intros [= ->]. subst. left.
  - intros H. right. by apply IH.
Qed.

Lemma get_None_keys k m : get k m = None <-> k ∉ keys m.
Proof.
  unfold keys. induction m as [|[k' v'] m IH]; simpl.
  - split; [intros _; apply not_elem_of_nil | done].
  - rewrite not_elem_of_cons. case_bool_decide as Hk.
    + split; [done | intros [? _]; by subst].
    + rewrite IH. split; [intros ?; split; [by intros ->|done] | by intros [_ ?]].
Qed.

(** With distinct keys, the entry of a key is the value [get] returns. *)
Lemma elem_of_get k v m : NoDup (keys m) -> (k, v) ∈ m -> get k m = Some v.
Proof.
  unfold keys. induction m as [|[k' v'] m IH]; simpl.
  - intros _ H. by apply elem_of_nil in H.
  - intros Hnd Hin. apply NoDup_cons in Hnd as [Hk' Hnd].
    apply elem_of_cons in Hin as [[= -> ->]|Hin].
    + by rewrite bool_decide_eq_true_2.
    + rewrite bool_decide_eq_false_2; [by apply IH|].
      intros ->. apply Hk'. apply list_elem_of_fmap. by exists (k, v).
Qed.

Lemma elem_of_set k v k' v' m :
  (k', v') ∈ set k v m -> (k', v') = (k, v) \/ (k', v') ∈ m.
Proof.
  induction m as [|[k0 v0] m IH]; simpl.
  - intros H. apply list_elem_of_singleton in H. by left.
  - case_bool_decide as Hk; intros H; apply elem_of_cons in H as [H|H].
    + left. congruence.
    + right. by right.
    + right. rewrite H. left.
    + destruct (IH H) as [?|?]; [by left | right; by right].
Qed.

Lemma elem_of_delete k k' v' m :
  (k', v') ∈ delete k m -> (k', v') ∈ m /\ k' <> k.
Proof.
  induction m as [|[k0 v0] m IH]; simpl.
  - intros H. by apply elem_of_nil in H.
  - case_bool_decide as Hk.
    + intros H. destruct (IH H). split; [by right | done].
    + intros H. apply elem_of_cons in H as [[= -> ->]|H].
      * split; [left | done].
      * destruct (IH H). split; [by right | done].
Qed.

(** A key that is absent is appended: insertion order. *)
Lemma set_absent k v m : get k m = None -> set k v m = m ++ [(k, v)].
Proof.
  induction m as [|[k' v'] m IH]; simpl; [done|].
  case_bool_decide as Hk; [done|]. intros H. by rewrite IH.
Qed.

(** A key that is present keeps its place. *)
Lemma set_present k v v0 pre post :
  k ∉ keys pre ->
  set k v (pre ++ (k, v0) :: post) = pre ++ (k, v) :: post.
Proof.
  unfold keys. induction pre as [|[k' v'] pre IH]; simpl.
  - intros _. by rewrite bool_decide_eq_true_2.
  - rewrite not_elem_of_cons. intros [Hne Hpre].
    rewrite bool_decide_eq_false_2 by congruence. by rewrite IH.
Qed.

Lemma keys_set k v m :
  keys (set k v m) = if has k m then keys m else keys m ++ [k].
Proof.
  unfold keys, has. induction m as [|[k' v'] m IH]; [done|].
  cbn [set get]. case_bool_decide as Hk; [done|].
  rewrite !fmap_cons, IH. by destruct (get k m).
Qed.

Lemma delete_absent k m : k ∉ keys m -> delete k m = m.
Proof.
  unfold keys. induction m as [|[k' v'] m IH]; simpl; [done|].
  rewrite not_elem_of_cons. intros [Hne Hm].
  rewrite bool_decide_eq_false_2 by congruence. by rewrite IH.
Qed.

(** With distinct keys, [delete] takes out one entry and keeps the order
    of the others. *)
Lemma delete_middle k v pre post :
  NoDup (keys (pre ++ (k, v) :: post)) ->
  delete k (pre ++ (k, v) :: post) = pre ++ post.
Proof.
  unfold keys. rewrite fmap_app, fmap_cons. simpl. intros Hnd.
  apply NoDup_app in Hnd as (_ & Hpre & Hpost).
  apply NoDup_cons in Hpost as [Hpost _].
  induction pre as [|[k' v'] pre IH]; simpl.
  - rewrite bool_decide_eq_true_2 by done. by apply delete_absent.
  - rewrite bool_decide_eq_false_2.
    + rewrite IH; [done|]. intros x Hx. apply Hpre. simpl. by right.
    + intros ->. apply (Hpre k); simpl; left.
Qed.

Lemma NoDup_keys_set k v m : NoDup (keys m) -> NoDup (keys (set k v m)).
Proof.
  intros Hnd. rewrite keys_set. destruct (has k m) eqn:Hh; [done|].
  apply NoDup_app. split_and!; [done| |apply NoDup_singleton].
  intros x Hx Hx'. apply list_elem_of_singleton in Hx' as ->.
  apply has_false, get_None_keys in Hh. done.
Qed.

Lemma NoDup_keys_delete k m : NoDup (keys m) -> NoDup (keys (delete k m)).
Proof.
  unfold keys. induction m as [|[k' v'] m IH]; simpl; [done|].
  intros Hnd. apply NoDup_cons in Hnd as [Hk' Hnd].
  case_bool_decide as Hk; [by apply IH|]. simpl.
  apply NoDup_cons. split; [|by apply IH].
  intros Hin. apply Hk'. apply list_elem_of_fmap in Hin as [[k0 v0] [-> Hin]].
  apply elem_of_delete in Hin as [Hin _].
  apply list_elem_of_fmap. by exists (k0, v0).
Qed.

End JsMapFacts.

(** ** The handlers, case by case *)

Section HandlerEquations.
Import JsMap JsMapFacts.

Variable st : state.

Lemma join_session_unknown h sid :
  get sid (sessions st) = None ->
  join_session h sid st = (st, [socket_emit h SessionNotFound]).
Proof. intros H. unfold join_session, has. by rewrite H. Qed.

Lemma join_session_known h sid s :
  get sid (sessions st) = Some s ->
  join_session h sid st =
    (State (set sid (joined_by h s) (sessions st))
           (base.delete (timeout s) (timers st)) (next_timer st),
     [io_to_emit (Some (desktop s)) MobileConnected;
      socket_emit h ConnectionSuccessful] ++ flush_pending (pendingSignals s)).
Proof.
  intros H. unfold join_session, has. rewrite H.
  destruct s as [d m r ps c t]. unfold joined_by. cbn.
  by destruct ps.
Qed.

Lemma relay_signal_unknown h sid p :
  get sid (sessions st) = None -> relay_signal h sid p st = (st, []).
Proof. intros H. unfold relay_signal, has. by rewrite H. Qed.

Lemma relay_signal_buffers h sid p s :
  get sid (sessions st) = Some s -> ready s = false ->
  relay_signal h sid p st =
    (with_sessions (set sid (buffering (other_side h s) p s) (sessions st)) st,
     []).
Proof.
  intros H Hr. unfold relay_signal, has, buffering, other_side.
  by rewrite H, Hr.
Qed.

Lemma relay_signal_forwards h sid p s :
  get sid (sessions st) = Some s -> ready s = true ->
  relay_signal h sid p st =
    (st, if truthy (other_side h s)
         then [io_to_emit (other_side h s) (SignalMsg p)] else []).
Proof.
  intros H Hr. unfold relay_signal, has. rewrite H, Hr. cbn.
  fold (other_side h s). by destruct (truthy (other_side h s)).
Qed.

Lemma callback_unknown sid :
  get sid (sessions st) = None -> session_timeout_callback sid st = (st, []).
Proof. intros H. unfold session_timeout_callback, has. by rewrite H. Qed.

Lemma callback_joined sid s :
  get sid (sessions st) = Some s -> truthy (mobile s) = true ->
  session_timeout_callback sid st = (st, []).
Proof. intros H Hm. unfold session_timeout_callback, has. by rewrite H, Hm. Qed.

Lemma callback_expires sid s :
  get sid (sessions st) = Some s -> truthy (mobile s) = false ->
  session_timeout_callback sid st =
    (with_sessions (delete sid (sessions st)) st,
     [io_to_emit (Some (desktop s)) SessionTimeout]).
Proof. intros H Hm. unfold session_timeout_callback, has. by rewrite H, Hm. Qed.

Lemma handle_disconnect_none h :
  disconnect_scan h (sessions st) = None -> handle_disconnect h st = (st, []).
Proof. intros H. unfold handle_disconnect. by rewrite H. Qed.

Lemma handle_disconnect_found h sid s :
  disconnect_scan h (sessions st) = Some (sid, s) ->
  handle_disconnect h st =
    (with_sessions (delete sid (sessions st)) st,
     if truthy (other_side h s)
     then [io_to_emit (other_side h s) PeerDisconnected] else []).
Proof. intros H. unfold handle_disconnect. by rewrite H. Qed.

End HandlerEquations.

(** ** The scan of [disconnect] *)

Section Scan.
Import JsMap JsMapFacts.

Lemma disconnect_scan_first h pre sid s post :
  Forall (fun e => involves h e.2 = false) pre ->
  involves h s = true ->
  disconnect_scan h (pre ++ (sid, s) :: post) = Some (sid, s).
Proof.
  intros Hpre Hs. induction Hpre as [|[k x] pre Hx _ IH]; simpl.
  - by rewrite Hs.
  - simpl in Hx. by rewrite Hx.
Qed.

(** What the scan stops at is the first entry that involves the socket. *)
Lemma disconnect_scan_Some h m sid s :
  disconnect_scan h m = Some (sid, s) ->
  exists pre post,
    m = pre ++ (sid, s) :: post /\
    Forall (fun e => involves h e.2 = false) pre /\
    involves h s = true.
Proof.
  induction m as [|[k x] m IH]; simpl; [done|].
  destruct (involves h x) eqn:Hx.
  - intros [= -> ->]. by exists [], m.
  - intros H. destruct (IH H) as (pre & post & -> & Hpre & Hs).
    exists ((k, x) :: pre), post. split_and!; [done| |done].
    by constructor.
Qed.

Lemma disconnect_scan_None h m :
  disconnect_scan h m = None <->
  Forall (fun e => involves h e.2 = false) m.
Proof.
  induction m as [|[k x] m IH]; simpl; [by split; [constructor|]|].
  destruct (involves h x) eqn:Hx.
  - split; [done|]. intros H. apply Forall_cons in H as [H _]. simpl in H.
    congruence.
  - rewrite IH. split; [by constructor|]. intros H.
    by apply Forall_cons in H as [_ H].
Qed.

Lemma disconnect_scan_elem_of h m sid s :
  disconnect_scan h m = Some (sid, s) -> (sid, s) ∈ m /\ involves h s = true.
Proof.
  intros H. apply disconnect_scan_Some in H as (pre & post & -> & _ & Hs).
  split; [|done]. apply elem_of_app. right. left.
Qed.

End Scan.

(** ** Well-formedness is an invariant *)

Section WellFormed.
Import JsMap JsMapFacts.

Lemma wf_init : wf init.
Proof.
  split; simpl.
  - apply NoDup_nil_2.
  - intros t tm H. by rewrite lookup_empty in H.
  - intros k x H. by apply elem_of_nil in H.
  - intros k x tm H. by apply elem_of_nil in H.
Qed.

Lemma wf_create h u now st : wf st -> wf (create_session h u now st).1.
Proof.
  intros [Hk Ha Ht Ho]. split; simpl.
  - by apply NoDup_keys_set.
  - intros t tm H. apply lookup_insert_Some in H as [[<- _]|[_ H]]; [lia|].
    apply Ha in H. lia.
  - intros k x H. apply elem_of_set in H as [[= -> ->]|H]; simpl; [lia|].
    apply Ht in H. lia.
  - intros k x tm H. apply elem_of_set in H as [[= -> ->]|H]; simpl.
    + rewrite lookup_insert_eq. by intros [= <-].
    + pose proof (Ht _ _ H) as Hlt.
      rewrite lookup_insert_ne by lia. by apply Ho.
Qed.

Lemma wf_join h sid st : wf st -> wf (join_session h sid st).1.
Proof.
  intros Hwf. destruct (get sid (sessions st)) as [s|] eqn:Hs.
  2: { by rewrite join_session_unknown. }
  rewrite (join_session_known _ _ _ _ Hs). destruct Hwf as [Hk Ha Ht Ho].
  pose proof (get_Some_elem_of _ _ _ Hs) as Hin.
  split; simpl.
  - by apply NoDup_keys_set.
  - intros t tm H. apply lookup_delete_Some in H as [_ H]. by apply Ha in H.
  - intros k x H. apply elem_of_set in H as [[= -> ->]|H]; simpl; eauto.
  - intros k x tm H. apply elem_of_set in H as [[= -> ->]|H]; simpl.
    + by rewrite lookup_delete_eq.
    + intros Hl. apply lookup_delete_Some in Hl as [_ Hl]. eauto.
Qed.

Lemma wf_signal h sid p st : wf st -> wf (relay_signal h sid p st).1.
Proof.
  intros Hwf. destruct (get sid (sessions st)) as [s|] eqn:Hs.
  2: { by rewrite relay_signal_unknown. }
  destruct (ready s) eqn:Hr.
  { by rewrite (relay_signal_forwards _ _ _ _ _ Hs Hr). }
  rewrite (relay_signal_buffers _ _ _ _ _ Hs Hr).
  destruct Hwf as [Hk Ha Ht Ho].
  pose proof (get_Some_elem_of _ _ _ Hs) as Hin.
  split; simpl.
  - by apply NoDup_keys_set.
  - done.
  - intros k x H. apply elem_of_set in H as [[= -> ->]|H]; simpl; eauto.
  - intros k x tm H. apply elem_of_set in H as [[= -> ->]|H]; simpl; eauto.
Qed.

Lemma wf_delete sid st :
  wf st -> wf (with_sessions (delete sid (sessions st)) st).
Proof.
  intros [Hk Ha Ht Ho]. split; simpl.
  - by apply NoDup_keys_delete.
  - done.
  - intros k x H. apply elem_of_delete in H as [H _]. eauto.
  - intros k x tm H. apply elem_of_delete in H as [H _]. eauto.
Qed.

Lemma wf_disconnect h st : wf st -> wf (handle_disconnect h st).1.
Proof.
  intros Hwf. unfold handle_disconnect.
  destruct (disconnect_scan h (sessions st)) as [[sid s]|]; [|done].
  by apply wf_delete.
Qed.

Lemma wf_callback sid st : wf st -> wf (session_timeout_callback sid st).1.
Proof.
  intros Hwf. unfold session_timeout_callback.
  destruct (has sid (sessions st)); [|done].
  destruct (get sid (sessions st)) as [s|]; [|done].
  destruct (negb (truthy (mobile s))); [|done].
  by apply wf_delete.
Qed.

Lemma wf_timer t st : wf st -> wf (timer_fired t st).1.
Proof.
  intros Hwf. unfold timer_fired.
  destruct (timers st !! t) as [tm|] eqn:Htm; [|done].
  apply wf_callback. destruct Hwf as [Hk Ha Ht Ho]. split; simpl.
  - done.
  - intros t' tm' H. apply lookup_delete_Some in H as [_ H]. eauto.
  - done.
  - intros k x tm' H Hl. apply lookup_delete_Some in Hl as [_ Hl]. eauto.
Qed.

Lemma wf_step e st : wf st -> wf (step e st).1.
Proof.
  intros Hwf. destruct e; simpl.
  - by apply wf_create.
  - by apply wf_join.
  - by apply wf_signal.
  - by apply wf_disconnect.
  - by apply wf_timer.
Qed.

Lemma run_cons e es st :
  run (e :: es) st =
    ((run es (step e st).1).1, (step e st).2 ++ (run es (step e st).1).2).
Proof.
  cbn [run]. destruct (step e st) as [st1 out1]. cbn [fst snd].
  by destruct (run es st1) as [st2 out2].
Qed.

Lemma run_app es1 es2 st :
  run (es1 ++ es2) st =
    ((run es2 (run es1 st).1).1, (run es1 st).2 ++ (run es2 (run es1 st).1).2).
Proof.
  revert st. induction es1 as [|e es1 IH]; intros st.
  - simpl. by destruct (run es2 st).
  - rewrite <- app_comm_cons, !run_cons, IH. simpl. by rewrite app_assoc.
Qed.

Lemma wf_run es st : wf st -> wf (run es st).1.
Proof.
  revert st. induction es as [|e es IH]; intros st Hwf; [done|].
  rewrite run_cons. simpl. by apply IH, wf_step.
Qed.

Lemma reachable_wf st : reachable st -> wf st.
Proof. intros [es <-]. apply wf_run, wf_init. Qed.

Lemma reachable_init : reachable init.
Proof. by exists []. Qed.

Lemma reachable_step e st : reachable st -> reachable (step e st).1.
Proof.
  intros [es <-]. exists (es ++ [e]). rewrite run_app. simpl.
  by destruct (step e (run es init).1).
Qed.

Lemma reachable_run es st : reachable st -> reachable (run es st).1.
Proof.
  revert st. induction es as [|e es IH]; intros st Hr; [done|].
  rewrite run_cons. simpl. by apply IH, reachable_step.
Qed.

End WellFormed.

(** ** A session that nobody joins *)

Section Awaiting.
Import JsMap JsMapFacts.

Lemma awaiting_create A sid now st :
  wf st -> fresh_uuid sid st ->
  awaiting A sid (next_timer st) (create_session A sid now st).1.
Proof.
  intros Hwf [Hnone Hfresh]. unfold awaiting. simpl. split_and!.
  - eexists. by rewrite get_set_eq.
  - eexists. by rewrite lookup_insert_eq.
  - intros t' tm H Hcb. apply lookup_insert_Some in H as [[-> _]|[_ H]]; [done|].
    by apply Hfresh in H.
Qed.

Lemma awaiting_step A sid t e st :
  wf st -> awaiting A sid t st -> quiet A sid t e ->
  awaiting A sid t (step e st).1.
Proof.
  intros Hwf Haw Hq. pose proof Haw as Haw0.
  destruct Haw as ((s & Hs & Hd & Hm) & (tm & Ht & Hcb) & Huniq).
  destruct e as [h u now|h sid'|h sid' p|h|t']; simpl in Hq |- *.
  - (* create-session under another identifier *)
    pose proof (wf_armed _ Hwf _ _ Ht) as Hlt.
    unfold awaiting. simpl. split_and!.
    + exists s. by rewrite get_set_ne.
    + exists tm. by rewrite lookup_insert_ne by lia.
    + intros t0 tm0 H Hcb0.
      apply lookup_insert_Some in H as [[_ <-]|[_ H]]; [done|]. eauto.
  - (* join-session on another session *)
    destruct (get sid' (sessions st)) as [x|] eqn:Hx.
    2: { by rewrite join_session_unknown. }
    rewrite (join_session_known _ _ _ _ Hx). unfold awaiting. simpl.
    assert (timeout x <> t) as Hne.
    { intros Heq. apply Hq. rewrite <- Hcb.
      symmetry. apply (wf_owner _ Hwf sid' x tm).
      - by apply get_Some_elem_of.
      - by rewrite Heq. }
    split_and!.
    + exists s. by rewrite get_set_ne.
    + exists tm. by rewrite lookup_delete_ne.
    + intros t0 tm0 H Hcb0. apply lookup_delete_Some in H as [_ H]. eauto.
  - (* signal *)
    destruct (get sid' (sessions st)) as [x|] eqn:Hx.
    2: { by rewrite relay_signal_unknown. }
    destruct (ready x) eqn:Hr.
    { by rewrite (relay_signal_forwards _ _ _ _ _ Hx Hr). }
    rewrite (relay_signal_buffers _ _ _ _ _ Hx Hr). unfold awaiting. simpl.
    split_and!; [|by exists tm|done].
    destruct (decide (sid' = sid)) as [->|Hne].
    + eexists. rewrite get_set_eq. split; [done|]. simpl.
      assert (x = s) as -> by congruence. done.
    + exists s. by rewrite get_set_ne.
  - (* disconnect of another socket *)
    destruct (disconnect_scan h (sessions st)) as [[k x]|] eqn:Hscan.
    2: { by rewrite handle_disconnect_none. }
    rewrite (handle_disconnect_found _ _ _ _ Hscan). unfold awaiting. simpl.
    split_and!; [|by exists tm|done].
    exists s. split; [|done]. rewrite get_delete_ne; [done|].
    intros ->. apply disconnect_scan_elem_of in Hscan as [Hin Hinv].
    apply elem_of_get in Hin; [|by apply wf_keys].
    assert (x = s) as -> by congruence.
    unfold involves in Hinv. rewrite Hm, Hd in Hinv.
    rewrite !bool_decide_eq_false_2 in Hinv; [done|done|congruence].
  - (* the expiry of another session *)
    unfold timer_fired. destruct (timers st !! t') as [tm'|] eqn:Ht'; [|done].
    assert (cb_session tm' <> sid) as Hne by (intros Heq; eauto).
    assert (Hdis : awaiting A sid t (disarm t' st)).
    { unfold awaiting. simpl. split_and!.
      - by exists s.
      - exists tm. by rewrite lookup_delete_ne.
      - intros t0 tm0 H Hcb0. apply lookup_delete_Some in H as [_ H]. eauto. }
    unfold session_timeout_callback, has. simpl.
    destruct (get (cb_session tm') (sessions st)) as [x|]; [|done].
    destruct (truthy (mobile x)); simpl; [done|].
    destruct Hdis as (_ & Htm & Hu). unfold awaiting. simpl.
    split_and!; [|done|done].
    exists s. by rewrite get_delete_ne.
Qed.

Lemma awaiting_run A sid t es st :
  wf st -> awaiting A sid t st -> Forall (quiet A sid t) es ->
  awaiting A sid t (run es st).1.
Proof.
  intros Hwf Haw Hq. revert st Hwf Haw.
  induction Hq as [|e es He _ IH]; intros st Hwf Haw; [done|].
  rewrite run_cons. cbn [fst]. apply IH.
  - by apply wf_step.
  - by apply awaiting_step.
Qed.

Lemma awaiting_fire A sid t st :
  awaiting A sid t st ->
  timer_fired t st =
    (with_sessions (delete sid (sessions st)) (disarm t st),
     [io_to_emit (Some A) SessionTimeout]).
Proof.
  intros ((s & Hs & Hd & Hm) & (tm & Ht & Hcb) & _).
  unfold timer_fired. rewrite Ht, Hcb.
  rewrite (callback_expires _ sid s); [by rewrite Hd|done|].
  by rewrite Hm.
Qed.

(** A key that is not registered stays so until [uuidv4()] returns it. *)
Lemma unknown_step sid e st :
  not_reissued sid e ->
  get sid (sessions st) = None -> get sid (sessions (step e st).1) = None.
Proof.
  intros Hq Hnone.
  destruct e as [h u now|h sid'|h sid' p|h|t']; simpl in Hq |- *.
  - by rewrite get_set_ne.
  - destruct (get sid' (sessions st)) as [x|] eqn:Hx.
    + rewrite (join_session_known _ _ _ _ Hx). simpl.
      rewrite get_set_ne; [done|congruence].
    + by rewrite join_session_unknown.
  - destruct (get sid' (sessions st)) as [x|] eqn:Hx.
    2: { by rewrite relay_signal_unknown. }
    destruct (ready x) eqn:Hr.
    { by rewrite (relay_signal_forwards _ _ _ _ _ Hx Hr). }
    rewrite (relay_signal_buffers _ _ _ _ _ Hx Hr). simpl.
    rewrite get_set_ne; [done|congruence].
  - unfold handle_disconnect.
    destruct (disconnect_scan h (sessions st)) as [[k x]|]; [|done]. simpl.
    destruct (decide (k = sid)) as [->|Hne].
    + apply get_delete_eq.
    + by rewrite get_delete_ne.
  - unfold timer_fired. destruct (timers st !! t') as [tm'|]; [|done].
    unfold session_timeout_callback, has. simpl.
    destruct (get (cb_session tm') (sessions st)) as [x|]; [|done].
    destruct (truthy (mobile x)); simpl; [done|].
    destruct (decide (cb_session tm' = sid)) as [->|Hne].
    + apply get_delete_eq.
    + by rewrite get_delete_ne.
Qed.

Lemma unknown_run sid es st :
  Forall (not_reissued sid) es ->
  get sid (sessions st) = None -> get sid (sessions (run es st).1) = None.
Proof.
  intros Hq. revert st. induction Hq as [|e es He _ IH]; intros st Hnone; [done|].
  rewrite run_cons. cbn [fst]. by apply IH, unknown_step.
Qed.

End Awaiting.

(** ** Signals before the join, and sessions after it *)

Section Traces.
Import JsMap JsMapFacts.

(** Signals on a session that is not ready pile up in its buffer, in
    order, each with the target resolved when it arrived. *)
Lemma run_signals_buffer sid sigs st s :
  get sid (sessions st) = Some s -> ready s = false ->
  (run (signals_on sid sigs) st).2 = [] /\
  timers (run (signals_on sid sigs) st).1 = timers st /\
  exists s',
    get sid (sessions (run (signals_on sid sigs) st).1) = Some s' /\
    pendingSignals s' = pendingSignals s ++ buffered_for s sigs /\
    desktop s' = desktop s /\ mobile s' = mobile s /\ ready s' = false.
Proof.
  revert st s. induction sigs as [|[h p] sigs IH]; intros st s Hs Hr.
  - simpl. split_and!; [done|done|]. exists s. by rewrite app_nil_r.
  - change (signals_on sid ((h, p) :: sigs))
      with (Signal h sid p :: signals_on sid sigs).
    rewrite run_cons. cbn [step fst snd].
    rewrite (relay_signal_buffers _ _ _ _ _ Hs Hr). cbn [fst snd].
    set (s1 := buffering (other_side h s) p s).
    set (st1 := with_sessions _ st).
    assert (Hs1 : get sid (sessions st1) = Some s1).
    { subst st1. simpl. apply get_set_eq. }
    destruct (IH st1 s1 Hs1 Hr) as (Hout & Htm & s' & Hs' & Hp & Hd & Hm & Hr').
    split_and!; [by rewrite Hout|by rewrite Htm|].
    exists s'. split_and!; try done.
    rewrite Hp. subst s1. unfold buffered_for, other_side. simpl.
    by rewrite <- app_assoc.
Qed.

(** A session that has a mobile attached has one for as long as it is
    registered. *)
Lemma joined_step sid e st :
  keeps_joined sid e ->
  (forall s, get sid (sessions st) = Some s -> truthy (mobile s) = true) ->
  forall s, get sid (sessions (step e st).1) = Some s ->
            truthy (mobile s) = true.
Proof.
  intros Hq Hj.
  destruct e as [h u now|h sid'|h sid' p|h|t']; simpl in Hq |- *.
  - intros s. rewrite get_set_ne by done. apply Hj.
  - destruct (get sid' (sessions st)) as [x|] eqn:Hx.
    2: { by rewrite join_session_unknown. }
    rewrite (join_session_known _ _ _ _ Hx). simpl. intros s.
    destruct (decide (sid' = sid)) as [->|Hne].
    + rewrite get_set_eq. intros [= <-]. simpl.
      by rewrite bool_decide_eq_false_2.
    + rewrite get_set_ne by done. apply Hj.
  - destruct (get sid' (sessions st)) as [x|] eqn:Hx.
    2: { by rewrite relay_signal_unknown. }
    destruct (ready x) eqn:Hr.
    { by rewrite (relay_signal_forwards _ _ _ _ _ Hx Hr). }
    rewrite (relay_signal_buffers _ _ _ _ _ Hx Hr). simpl. intros s.
    destruct (decide (sid' = sid)) as [->|Hne].
    + rewrite get_set_eq. intros [= <-]. simpl. by apply Hj.
    + rewrite get_set_ne by done. apply Hj.
  - unfold handle_disconnect.
    destruct (disconnect_scan h (sessions st)) as [[k x]|]; [|done]. simpl.
    intros s. destruct (decide (k = sid)) as [->|Hne].
    + by rewrite get_delete_eq.
    + rewrite get_delete_ne by done. apply Hj.
  - unfold timer_fired. destruct (timers st !! t') as [tm'|]; [|done].
    unfold session_timeout_callback, has. simpl.
    destruct (get (cb_session tm') (sessions st)) as [x|]; [|done].
    destruct (truthy (mobile x)); simpl; [done|].
    intros s. destruct (decide (cb_session tm' = sid)) as [->|Hne].
    + by rewrite get_delete_eq.
    + rewrite get_delete_ne by done. apply Hj.
Qed.

Lemma joined_run sid es st :
  Forall (keeps_joined sid) es ->
  (forall s, get sid (sessions st) = Some s -> truthy (mobile s) = true) ->
  forall s, get sid (sessions (run es st).1) = Some s ->
            truthy (mobile s) = true.
Proof.
  intros Hq. revert st. induction Hq as [|e es He _ IH]; intros st Hj; [done|].
  rewrite run_cons. cbn [fst]. by apply IH, joined_step.
Qed.

(** The firing of a timer leaves every session with a mobile attached as
    it is. *)
Lemma timer_fired_keeps_joined sid t st :
  (forall s, get sid (sessions st) = Some s -> truthy (mobile s) = true) ->
  get sid (sessions (timer_fired t st).1) = get sid (sessions st).
Proof.
  intros Hj. unfold timer_fired.
  destruct (timers st !! t) as [tm|]; [|done].
  unfold session_timeout_callback, has. simpl.
  destruct (get (cb_session tm) (sessions st)) as [x|] eqn:Hx; [|done].
  destruct (truthy (mobile x)) eqn:Hmx; simpl; [done|].
  rewrite get_delete_ne; [done|]. intros Heq. rewrite Heq in Hx.
  apply Hj in Hx. congruence.
Qed.

End Traces.

(** ** A timer left behind by a deleted session *)

Section Dangling.
Import JsMap JsMapFacts.

Lemma callback_timers sid st :
  timers (session_timeout_callback sid st).1 = timers st /\
  next_timer (session_timeout_callback sid st).1 = next_timer st.
Proof.
  unfold session_timeout_callback.
  destruct (has sid (sessions st)); [|done].
  destruct (get sid (sessions st)) as [x|]; [|done].
  by destruct (negb (truthy (mobile x))).
Qed.

Lemma next_timer_step e st : next_timer st <= next_timer (step e st).1.
Proof.
  destruct e as [h u now|h sid'|h sid' p|h|t']; simpl.
  - lia.
  - destruct (get sid' (sessions st)) as [x|] eqn:Hx.
    + by rewrite (join_session_known _ _ _ _ Hx).
    + by rewrite join_session_unknown.
  - destruct (get sid' (sessions st)) as [x|] eqn:Hx.
    2: { by rewrite relay_signal_unknown. }
    destruct (ready x) eqn:Hr.
    { by rewrite (relay_signal_forwards _ _ _ _ _ Hx Hr). }
    by rewrite (relay_signal_buffers _ _ _ _ _ Hx Hr).
  - unfold handle_disconnect.
    by destruct (disconnect_scan h (sessions st)) as [[k x]|].
  - unfold timer_fired. destruct (timers st !! t') as [tm'|]; [|done].
    by destruct (callback_timers (cb_session tm') (disarm t' st)) as [_ ->].
Qed.

(** Timer identifiers are handed out once: no event arms a timer under an
    identifier handed out before. *)
Lemma timers_step_old e st t tm :
  t < next_timer st ->
  timers (step e st).1 !! t = Some tm -> timers st !! t = Some tm.
Proof.
  intros Hlt. destruct e as [h u now|h sid'|h sid' p|h|t']; simpl.
  - by rewrite lookup_insert_ne by lia.
  - destruct (get sid' (sessions st)) as [x|] eqn:Hx.
    + rewrite (join_session_known _ _ _ _ Hx). simpl. intros H.
      by apply lookup_delete_Some in H as [_ H].
    + by rewrite join_session_unknown.
  - destruct (get sid' (sessions st)) as [x|] eqn:Hx.
    2: { by rewrite relay_signal_unknown. }
    destruct (ready x) eqn:Hr.
    { by rewrite (relay_signal_forwards _ _ _ _ _ Hx Hr). }
    by rewrite (relay_signal_buffers _ _ _ _ _ Hx Hr).
  - unfold handle_disconnect.
    by destruct (disconnect_scan h (sessions st)) as [[k x]|].
  - unfold timer_fired. destruct (timers st !! t') as [tm'|]; [|done].
    destruct (callback_timers (cb_session tm') (disarm t' st)) as [-> _].
    simpl. intros H. by apply lookup_delete_Some in H as [_ H].
Qed.

Lemma timers_run_old es st t tm :
  t < next_timer st ->
  timers (run es st).1 !! t = Some tm -> timers st !! t = Some tm.
Proof.
  revert st. induction es as [|e es IH]; intros st Hlt; [done|].
  rewrite run_cons. cbn [fst]. intros H.
  pose proof (next_timer_step e st) as Hmono.
  apply IH in H; [|lia]. by apply (timers_step_old e).
Qed.

(** The timer of a session that was deleted stays armed until it fires, as
    long as the identifier of the session is not issued again. *)
Lemma dangling_step sid t tm e st :
  wf st ->
  get sid (sessions st) = None ->
  timers st !! t = Some tm -> cb_session tm = sid ->
  e <> TimerFired t ->
  timers (step e st).1 !! t = Some tm.
Proof.
  intros Hwf Hnone Ht Hcb Hfire.
  destruct e as [h u now|h sid'|h sid' p|h|t']; simpl.
  - pose proof (wf_armed _ Hwf _ _ Ht). by rewrite lookup_insert_ne by lia.
  - destruct (get sid' (sessions st)) as [x|] eqn:Hx.
    2: { by rewrite join_session_unknown. }
    rewrite (join_session_known _ _ _ _ Hx). simpl.
    rewrite lookup_delete_ne; [done|]. intros Heq.
    assert (cb_session tm = sid') as Hown.
    { apply (wf_owner _ Hwf sid' x tm); [by apply get_Some_elem_of|].
      by rewrite Heq. }
    congruence.
  - destruct (get sid' (sessions st)) as [x|] eqn:Hx.
    2: { by rewrite relay_signal_unknown. }
    destruct (ready x) eqn:Hr.
    { by rewrite (relay_signal_forwards _ _ _ _ _ Hx Hr). }
    by rewrite (relay_signal_buffers _ _ _ _ _ Hx Hr).
  - unfold handle_disconnect.
    by destruct (disconnect_scan h (sessions st)) as [[k x]|].
  - unfold timer_fired. destruct (timers st !! t') as [tm'|]; [|done].
    destruct (callback_timers (cb_session tm') (disarm t' st)) as [-> _].
    simpl. rewrite lookup_delete_ne; [done|]. congruence.
Qed.

Lemma dangling_run sid t tm es st :
  wf st ->
  get sid (sessions st) = None ->
  timers st !! t = Some tm -> cb_session tm = sid ->
  Forall (not_reissued sid) es ->
  Forall (fun e => e <> TimerFired t) es ->
  timers (run es st).1 !! t = Some tm.
Proof.
  intros Hwf Hnone Ht Hcb Hre. revert st Hwf Hnone Ht.
  induction Hre as [|e es He _ IH]; intros st Hwf Hnone Ht Hfire; [done|].
  apply Forall_cons in Hfire as [Hfire1 Hfire].
  rewrite run_cons. cbn [fst]. apply IH.
  - by apply wf_step.
  - by apply unknown_step.
  - by apply (dangling_step sid).
  - done.
Qed.

End Dangling.

(** * The claims of the specification *)

Section Claims.
Import JsMap JsMapFacts.

(** C7: for a [sessionId] that is not a key of the registry, [join-session]
    emits [session-not-found] to the requester and nothing else, [signal]
    emits nothing, and both leave the whole state (registry and timers) as
    it was. *)
Theorem unknown_session_changes_nothing (st : state) (h : handle)
    (sid : string) (p : payload) :
  get sid (sessions st) = None ->
  join_session h sid st = (st, [socket_emit h SessionNotFound]) /\
  relay_signal h sid p st = (st, []).
Proof.
  intros Hnone. split.
  - by apply join_session_unknown.
  - by apply relay_signal_unknown.
Qed.

Lemma unknown_session_changes_nothing_witness :
  let st := (run [CreateSession "A" "S" 0] init).1 in
  get "unknown-id" (sessions st) = None /\
  join_session "B" "unknown-id" st = (st, [socket_emit "B" SessionNotFound]) /\
  relay_signal "B" "unknown-id" "offer" st = (st, []).
Proof.
  split; [reflexivity|].
  apply (unknown_session_changes_nothing _ "B" "unknown-id" "offer").
  reflexivity.
Defined.

(** C4: a [signal] on a registered session whose [ready] is false appends
    the pair of the resolved target and the payload at the end of
    [pendingSignals] and emits nothing, whatever the resolved target is (it
    is the desktop, hence set, whenever the sender is not the desktop);
    nothing else in the state changes. *)
Theorem signal_before_ready_is_buffered (st : state) (h : handle)
    (sid : string) (p : payload) (s : session) :
  get sid (sessions st) = Some s ->
  ready s = false ->
  let target :=
    if bool_decide (h = desktop s) then mobile s else Some (desktop s) in
  let st' := (relay_signal h sid p st).1 in
  (relay_signal h sid p st).2 = [] /\
  (exists s',
     get sid (sessions st') = Some s' /\
     pendingSignals s' = pendingSignals s ++ [PendingSignal target p] /\
     desktop s' = desktop s /\ mobile s' = mobile s /\ ready s' = false /\
     created s' = created s /\ timeout s' = timeout s) /\
  (forall sid', sid' <> sid ->
     get sid' (sessions st') = get sid' (sessions st)) /\
  keys (sessions st') = keys (sessions st) /\
  timers st' = timers st /\ next_timer st' = next_timer st.
Proof.
  intros Hs Hr target st'. subst st'.
  rewrite (relay_signal_buffers _ _ _ _ _ Hs Hr). simpl.
  split_and!; try done.
  - eexists. rewrite get_set_eq. split; [done|]. simpl. by rewrite Hr.
  - intros sid' Hne. by apply get_set_ne.
  - rewrite keys_set. unfold has. by rewrite Hs.
Qed.

Lemma signal_before_ready_is_buffered_witness :
  let st := (run [CreateSession "A" "S" 0] init).1 in
  let st' := (relay_signal "B" "S" "answer" st).1 in
  (relay_signal "B" "S" "answer" st).2 = [] /\
  (exists s',
     get "S" (sessions st') = Some s' /\
     pendingSignals s' = [PendingSignal (Some "A") "answer"]).
Proof.
  pose proof (signal_before_ready_is_buffered
                (run [CreateSession "A" "S" 0] init).1 "B" "S" "answer"
                (Session "A" None false [] 0 0) eq_refl eq_refl)
    as (Hout & (s' & Hget & Hp & _) & _).
  split; [exact Hout|]. exists s'. split; [exact Hget | exact Hp].
Defined.

(** What [join-session] emits for the buffer.  On a registered session
    whose buffer holds N entries it calls [emit], after the two
    notifications, N times: the i-th call carries the payload of the i-th
    entry and is addressed to the room recorded in that entry, in the order
    the entries were enqueued, and the session is left with an empty
    buffer.  For the signals that arrive between [create-session] and the
    first [join-session] the recorded room is the desktop for a sender that
    is not the desktop, and [null], the mobile of that moment, for the
    desktop: a room no socket is in. *)
Lemma join_flushes_pending_in_order :
  (forall st h sid s,
     get sid (sessions st) = Some s ->
     let st' := (join_session h sid st).1 in
     let out := (join_session h sid st).2 in
     out = [io_to_emit (Some (desktop s)) MobileConnected;
            socket_emit h ConnectionSuccessful]
           ++ map (fun e => Emit (targetId e) (SignalMsg (data e)))
                  (pendingSignals s) /\
     length out = 2 + length (pendingSignals s) /\
     (forall i e, pendingSignals s !! i = Some e ->
        out !! (2 + i) = Some (Emit (targetId e) (SignalMsg (data e)))) /\
     (exists s', get sid (sessions st') = Some s' /\ pendingSignals s' = [])) /\
  (forall st A B sid now sigs,
     let st1 := (create_session A sid now st).1 in
     let r := run (signals_on sid sigs) st1 in
     r.2 = [] /\
     (join_session B sid r.1).2 =
       [io_to_emit (Some A) MobileConnected;
        socket_emit B ConnectionSuccessful]
       ++ map (fun hp =>
                 Emit (if bool_decide (hp.1 = A) then None else Some A)
                      (SignalMsg hp.2)) sigs /\
     (exists s',
        get sid (sessions (join_session B sid r.1).1) = Some s' /\
        pendingSignals s' = [])).
Proof.
  split.
  - intros st h sid s Hs st' out. subst st' out.
    rewrite (join_session_known _ _ _ _ Hs). simpl.
    split_and!.
    + done.
    + unfold flush_pending. by rewrite length_map.
    + intros i e Hi. unfold flush_pending. rewrite list_lookup_fmap, Hi. done.
    + eexists. by rewrite get_set_eq.
  - intros st A B sid now sigs st1 r.
    set (s := Session A None false [] now (next_timer st)).
    assert (Hs : get sid (sessions st1) = Some s).
    { subst st1. simpl. apply get_set_eq. }
    destruct (run_signals_buffer sid sigs st1 s Hs eq_refl)
      as (Hout & _ & s' & Hs' & Hp & Hd & _).
    fold r in Hout, Hs'. split; [done|].
    rewrite (join_session_known _ _ _ _ Hs'). simpl. split.
    + rewrite Hd, Hp. simpl. do 2 f_equal.
      unfold flush_pending, buffered_for, other_side. rewrite map_map.
      done.
    + eexists. by rewrite get_set_eq.
Qed.

(** C3: the flush of [join-session] does not deliver what the desktop
    buffered.  Socket A creates session S and sends the signal "offer"
    before any join: the handler resolves the target to [session.mobile],
    still [null], and buffers the pair.  When B joins, the flush emits the
    offer once, to the room [null]; no emission of the offer is addressed to
    any socket, so B, the other participant, does not get it.  The buffer is
    empty afterwards. *)
Theorem buffered_offer_reaches_no_socket :
  let st := (run [CreateSession "A" "S" 0; Signal "A" "S" "offer"] init).1 in
  let r := join_session "B" "S" st in
  (pendingSignals <$> get "S" (sessions st)) =
    Some [PendingSignal None "offer"] /\
  r.2 = [Emit (Some "A") MobileConnected;
         Emit (Some "B") ConnectionSuccessful;
         Emit None (SignalMsg "offer")] /\
  (forall h, Emit (Some h) (SignalMsg "offer") ∉ r.2) /\
  (pendingSignals <$> get "S" (sessions r.1)) = Some [].
Proof.
  cbv zeta. split_and!.
  - reflexivity.
  - reflexivity.
  - intros h Hin. vm_compute in Hin.
    repeat (apply elem_of_cons in Hin as [Hin|Hin]; [discriminate Hin|]).
    by apply elem_of_nil in Hin.
  - reflexivity.
Qed.

(** C9: a [signal] on a registered session from a socket that is neither
    its desktop nor its mobile resolves its target to the desktop, the
    target a signal from the mobile resolves to: before [ready] the payload
    is buffered with the desktop as target, once [ready] it is emitted to
    the desktop; the handler's result is the one it has for any other sender
    that is not the desktop, the mobile included. *)
Theorem third_party_signal_goes_to_desktop (st : state) (h : handle)
    (sid : string) (p : payload) (s : session) :
  get sid (sessions st) = Some s ->
  h <> desktop s ->
  mobile s <> Some h ->
  valid_handle (desktop s) ->
  other_side h s = Some (desktop s) /\
  relay_signal h sid p st =
    (if ready s
     then (st, [io_to_emit (Some (desktop s)) (SignalMsg p)])
     else (with_sessions
             (set sid (buffering (Some (desktop s)) p s) (sessions st)) st,
           [])) /\
  (forall m, mobile s = Some m -> m <> desktop s ->
     other_side m s = Some (desktop s) /\
     relay_signal h sid p st = relay_signal m sid p st).
Proof.
  intros Hs Hd _ Hv.
  assert (Hside : forall x, x <> desktop s -> other_side x s = Some (desktop s)).
  { intros x Hx. unfold other_side. by rewrite bool_decide_eq_false_2. }
  assert (Htruthy : truthy (Some (desktop s)) = true).
  { simpl. by rewrite bool_decide_eq_false_2. }
  assert (Hrelay : forall x, x <> desktop s ->
            relay_signal x sid p st =
              (if ready s
               then (st, [io_to_emit (Some (desktop s)) (SignalMsg p)])
               else (with_sessions
                       (set sid (buffering (Some (desktop s)) p s)
                            (sessions st)) st, []))).
  { intros x Hx. destruct (ready s) eqn:Hr.
    - rewrite (relay_signal_forwards _ _ _ _ _ Hs Hr), (Hside x Hx).
      by rewrite Htruthy.
    - by rewrite (relay_signal_buffers _ _ _ _ _ Hs Hr), (Hside x Hx). }
  split_and!.
  - by apply Hside.
  - by apply Hrelay.
  - intros m _ Hm. split; [by apply Hside|].
    by rewrite (Hrelay h Hd), (Hrelay m Hm).
Qed.

Lemma third_party_signal_goes_to_desktop_witness :
  let st := (run [CreateSession "A" "S" 0; JoinSession "B" "S"] init).1 in
  relay_signal "X" "S" "candidate" st =
    (st, [Emit (Some "A") (SignalMsg "candidate")]) /\
  relay_signal "X" "S" "candidate" st = relay_signal "B" "S" "candidate" st.
Proof.
  assert (Hv : valid_handle "A") by (intros H; discriminate H).
  assert (Hx : "X" <> "A") by (intros H; discriminate H).
  assert (Hm : Some "B" <> Some "X") by (intros H; discriminate H).
  assert (Hb : "B" <> "A") by (intros H; discriminate H).
  pose proof (third_party_signal_goes_to_desktop
                (run [CreateSession "A" "S" 0; JoinSession "B" "S"] init).1
                "X" "S" "candidate" (Session "A" (Some "B") true [] 0 0)
                eq_refl Hx Hm Hv) as (_ & Hrelay & Hsame).
  split; [exact Hrelay|]. exact (proj2 (Hsame "B" eq_refl Hb)).
Defined.

(** C5: an expiry that runs when its session is gone, or after a
    [join-session] on it completed, does nothing.  (1) When the timer's
    session is not registered, the firing emits nothing and leaves the
    registry as it is.  (2) A [join-session] on a registered session
    disarms the session's timer, so its firing changes nothing at all; and
    had the callback run all the same, its own test would have made it
    change nothing; whatever events follow the join, no firing of any timer
    deletes or changes the session.  (3) In no state does the firing of any
    timer delete, or change, a session that has a mobile attached. *)
Theorem stale_expiry_is_noop :
  (forall st t tm,
     timers st !! t = Some tm ->
     get (cb_session tm) (sessions st) = None ->
     timer_fired t st = (disarm t st, []) /\
     sessions (timer_fired t st).1 = sessions st) /\
  (forall st h sid s,
     get sid (sessions st) = Some s ->
     valid_handle h ->
     let st' := (join_session h sid st).1 in
     (exists s', get sid (sessions st') = Some s' /\ ready s' = true) /\
     timers st' !! timeout s = None /\
     timer_fired (timeout s) st' = (st', []) /\
     session_timeout_callback sid st' = (st', []) /\
     (forall t, (timer_fired t st').2 = [] \/
                exists tm, timers st' !! t = Some tm /\ cb_session tm <> sid) /\
     (forall t, get sid (sessions (timer_fired t st').1) =
                get sid (sessions st')) /\
     (forall es t,
        Forall (keeps_joined sid) es ->
        get sid (sessions (timer_fired t (run es st').1).1) =
        get sid (sessions (run es st').1))) /\
  (forall st sid s t,
     get sid (sessions st) = Some s ->
     truthy (mobile s) = true ->
     get sid (sessions (timer_fired t st).1) = Some s /\
     session_timeout_callback sid st = (st, [])).
Proof.
  assert (Hkeep : forall st sid s t,
            get sid (sessions st) = Some s -> truthy (mobile s) = true ->
            get sid (sessions (timer_fired t st).1) = Some s).
  { intros st sid s t Hs Hm. unfold timer_fired.
    destruct (timers st !! t) as [tm|]; [|done].
    unfold session_timeout_callback, has. simpl.
    destruct (get (cb_session tm) (sessions st)) as [x|] eqn:Hx; [|done].
    destruct (truthy (mobile x)) eqn:Hmx; simpl; [done|].
    rewrite get_delete_ne; [done|]. intros Heq. rewrite Heq in Hx.
    congruence. }
  split_and!.
  - intros st t tm Ht Hnone. unfold timer_fired. rewrite Ht.
    rewrite callback_unknown by done. done.
  - intros st h sid s Hs Hv st'. subst st'.
    rewrite (join_session_known _ _ _ _ Hs). cbn [fst].
    assert (Hm : truthy (mobile (joined_by h s)) = true).
    { simpl. by rewrite bool_decide_eq_false_2. }
    set (st' := State _ _ _).
    assert (Hs' : get sid (sessions st') = Some (joined_by h s)).
    { subst st'. simpl. by rewrite get_set_eq. }
    split_and!.
    + by exists (joined_by h s).
    + subst st'. simpl. by rewrite lookup_delete_eq.
    + unfold timer_fired. subst st'. simpl. by rewrite lookup_delete_eq.
    + by rewrite (callback_joined _ _ _ Hs' Hm).
    + intros t. unfold timer_fired.
      destruct (timers st' !! t) as [tm|] eqn:Ht; [|by left].
      destruct (decide (cb_session tm = sid)) as [Heq|Hne].
      * left. rewrite Heq.
        by rewrite (callback_joined (disarm t st') sid (joined_by h s)).
      * right. by exists tm.
    + intros t. rewrite Hs'. by apply Hkeep.
    + intros es t Hes. apply timer_fired_keeps_joined.
      apply (joined_run sid es st' Hes).
      intros x Hx. rewrite Hs' in Hx. by injection Hx as <-.
  - intros st sid s t Hs Hm. split; [by apply Hkeep|].
    by apply (callback_joined _ _ s).
Qed.

Lemma stale_expiry_is_noop_witness :
  let st := (run [CreateSession "A" "S" 0] init).1 in
  let st' := (join_session "B" "S" st).1 in
  timers st !! 0%nat = Some (Timer "S" SESSION_TIMEOUT) /\
  timers st' !! 0%nat = None /\
  timer_fired 0 st' = (st', []) /\
  session_timeout_callback "S" st' = (st', []).
Proof.
  assert (Hv : valid_handle "B") by (intros H; discriminate H).
  pose proof (proj1 (proj2 stale_expiry_is_noop)
                (run [CreateSession "A" "S" 0] init).1 "B" "S"
                (Session "A" None false [] 0 0) eq_refl Hv)
    as (_ & Hcleared & Hfire & Hcb & _).
  split; [reflexivity|]. split; [exact Hcleared|].
  split; [exact Hfire | exact Hcb].
Defined.

(** C1, as the code has it: [join-session] does not look at
    [session.mobile].  On every registered session, joined before or not,
    it stores the requester as [mobile], sets [ready], keeps the desktop,
    and emits [mobile-connected] to the desktop and [connection-successful]
    to the requester: the last join wins.  No other event changes the
    [mobile] of a session that stays registered (a [create-session] for
    which [uuidv4()] returned a key in use apart). *)
Theorem join_session_last_join_wins (st : state) (h : handle)
    (sid : string) (s : session) :
  get sid (sessions st) = Some s ->
  (exists s',
     get sid (sessions (join_session h sid st).1) = Some s' /\
     mobile s' = Some h /\ ready s' = true /\ desktop s' = desktop s) /\
  (exists rest,
     (join_session h sid st).2 =
       io_to_emit (Some (desktop s)) MobileConnected
       :: socket_emit h ConnectionSuccessful :: rest) /\
  (forall e s',
     (forall h', e <> JoinSession h' sid) ->
     (forall h' now, e <> CreateSession h' sid now) ->
     get sid (sessions (step e st).1) = Some s' ->
     mobile s' = mobile s).
Proof.
  intros Hs. split_and!.
  - rewrite (join_session_known _ _ _ _ Hs). simpl.
    exists (joined_by h s). by rewrite get_set_eq.
  - rewrite (join_session_known _ _ _ _ Hs). simpl. by eexists.
  - intros e s' Hjoin Hcreate.
    destruct e as [h' u now|h' sid'|h' sid' p|h'|t]; simpl.
    + assert (u <> sid) as Hne by (intros ->; by eapply Hcreate).
      rewrite get_set_ne by done. simpl. congruence.
    + assert (sid' <> sid) as Hne by (intros ->; by eapply Hjoin).
      destruct (get sid' (sessions st)) as [x|] eqn:Hx.
      * rewrite (join_session_known _ _ _ _ Hx). simpl.
        rewrite get_set_ne by done. congruence.
      * rewrite join_session_unknown by done. simpl. congruence.
    + destruct (get sid' (sessions st)) as [x|] eqn:Hx.
      2: { rewrite relay_signal_unknown by done. simpl. congruence. }
      destruct (ready x) eqn:Hr.
      { rewrite (relay_signal_forwards _ _ _ _ _ Hx Hr). simpl. congruence. }
      rewrite (relay_signal_buffers _ _ _ _ _ Hx Hr). simpl.
      destruct (decide (sid' = sid)) as [->|Hne].
      * rewrite get_set_eq. intros [= <-]. simpl. congruence.
      * rewrite get_set_ne by done. congruence.
    + unfold handle_disconnect.
      destruct (disconnect_scan h' (sessions st)) as [[k x]|]; simpl.
      * destruct (decide (k = sid)) as [->|Hne].
        -- by rewrite get_delete_eq.
        -- rewrite get_delete_ne by done. congruence.
      * congruence.
    + unfold timer_fired. destruct (timers st !! t) as [tm|]; simpl.
      2: { congruence. }
      unfold session_timeout_callback, has. simpl.
      destruct (get (cb_session tm) (sessions st)) as [x|]; simpl.
      2: { congruence. }
      destruct (truthy (mobile x)); simpl; [congruence|].
      destruct (decide (cb_session tm = sid)) as [->|Hne].
      * by rewrite get_delete_eq.
      * rewrite get_delete_ne by done. congruence.
Qed.

Lemma join_session_last_join_wins_witness :
  let st := (run [CreateSession "A" "S" 0; JoinSession "B" "S"] init).1 in
  get "S" (sessions st) = Some (Session "A" (Some "B") true [] 0 0) /\
  (exists s',
     get "S" (sessions (join_session "C" "S" st).1) = Some s' /\
     mobile s' = Some "C" /\ ready s' = true /\ desktop s' = "A").
Proof.
  split; [reflexivity|].
  exact (proj1 (join_session_last_join_wins
                  (run [CreateSession "A" "S" 0; JoinSession "B" "S"] init).1
                  "C" "S" (Session "A" (Some "B") true [] 0 0) eq_refl)).
Defined.

(** C1 fails as stated: after B joined session S, a [join-session] of C on
    S is neither rejected nor ignored; it gets the notifications of a
    successful join and [mobile] goes from B to C. *)
Lemma second_join_overwrites_mobile :
  let st1 := (run [CreateSession "A" "S" 0; JoinSession "B" "S"] init).1 in
  let r := join_session "C" "S" st1 in
  mobile <$> get "S" (sessions st1) = Some (Some "B") /\
  mobile <$> get "S" (sessions r.1) = Some (Some "C") /\
  r.2 = [Emit (Some "A") MobileConnected; Emit (Some "C") ConnectionSuccessful].
Proof. vm_compute. done. Qed.

(** C2, as the code has it: [disconnect] never touches a timer.  When it
    deletes a session whose expiry timer is armed, the timer stays armed and
    closes over a key that is registered no more.  Whatever events follow,
    as long as [uuidv4()] does not return that key again, the key stays
    unregistered and the timer stays armed until it fires; and whenever it
    fires, at once or after any such events, the callback finds no session
    and does nothing: no message, the registry unchanged. *)
Theorem disconnect_leaves_timer_armed (st : state) (h : handle)
    (sid : string) (s : session) (tm : timer) :
  wf st ->
  disconnect_scan h (sessions st) = Some (sid, s) ->
  timers st !! timeout s = Some tm ->
  let st' := (handle_disconnect h st).1 in
  timers st' = timers st /\
  get sid (sessions st') = None /\
  timers st' !! timeout s = Some tm /\ cb_session tm = sid /\
  timer_fired (timeout s) st' = (disarm (timeout s) st', []) /\
  sessions (timer_fired (timeout s) st').1 = sessions st' /\
  (forall es,
     Forall (not_reissued sid) es ->
     let st2 := (run es st').1 in
     get sid (sessions st2) = None /\
     (timer_fired (timeout s) st2).2 = [] /\
     sessions (timer_fired (timeout s) st2).1 = sessions st2 /\
     (Forall (fun e => e <> TimerFired (timeout s)) es ->
      timers st2 !! timeout s = Some tm /\
      timer_fired (timeout s) st2 = (disarm (timeout s) st2, []))).
Proof.
  intros Hwf Hscan Htm st'.
  assert (Hst' : st' = with_sessions (delete sid (sessions st)) st).
  { subst st'. by rewrite (handle_disconnect_found _ _ _ _ Hscan). }
  pose proof Hscan as Hscan0.
  apply disconnect_scan_elem_of in Hscan as [Hin _].
  pose proof (wf_owner _ Hwf _ _ _ Hin Htm) as Hown.
  assert (Hwf' : wf st') by (subst st'; by apply wf_disconnect).
  assert (Hgone : get sid (sessions st') = None).
  { rewrite Hst'. simpl. apply get_delete_eq. }
  assert (Harmed : timers st' !! timeout s = Some tm) by by rewrite Hst'.
  assert (Hnoop : forall st2,
            get sid (sessions st2) = None ->
            (forall tm', timers st2 !! timeout s = Some tm' -> tm' = tm) ->
            (timer_fired (timeout s) st2).2 = [] /\
            sessions (timer_fired (timeout s) st2).1 = sessions st2 /\
            (timers st2 !! timeout s = Some tm ->
             timer_fired (timeout s) st2 = (disarm (timeout s) st2, []))).
  { intros st2 Hnone Hsame. unfold timer_fired.
    destruct (timers st2 !! timeout s) as [tm'|] eqn:Ht2.
    - rewrite (Hsame tm' eq_refl), Hown.
      by rewrite (callback_unknown (disarm (timeout s) st2) sid Hnone).
    - split_and!; [done|done|]. intros H. discriminate H. }
  split_and!.
  - by rewrite Hst'.
  - done.
  - done.
  - done.
  - destruct (Hnoop st' Hgone) as (_ & _ & H); [|by apply H].
    intros tm' H. congruence.
  - destruct (Hnoop st' Hgone) as (_ & H & _); [|done].
    intros tm' H. congruence.
  - intros es Hes st2.
    assert (Hgone2 : get sid (sessions st2) = None) by by apply unknown_run.
    assert (Hsame : forall tm', timers st2 !! timeout s = Some tm' -> tm' = tm).
    { intros tm' H. apply timers_run_old in H.
      - change (timers st' !! timeout s = Some tm') in H.
        rewrite Harmed in H. by injection H.
      - by apply (wf_armed _ Hwf' _ tm). }
    destruct (Hnoop st2 Hgone2 Hsame) as (Hout & Hsess & Hfire).
    split_and!; [done|done|done|].
    intros Hnofire.
    assert (Harmed2 : timers st2 !! timeout s = Some tm).
    { by apply (dangling_run sid). }
    split; [done|]. by apply Hfire.
Qed.

Lemma disconnect_leaves_timer_armed_witness :
  let st := (run [CreateSession "A" "S" 0] init).1 in
  let st' := (handle_disconnect "A" st).1 in
  let st2 := (run [CreateSession "C" "S2" 5; JoinSession "D" "S2";
                   Signal "A" "S" "late"] st').1 in
  get "S" (sessions st') = None /\
  timers st' !! 0%nat = Some (Timer "S" SESSION_TIMEOUT) /\
  timer_fired 0 st' = (disarm 0 st', []) /\
  timers st2 !! 0%nat = Some (Timer "S" SESSION_TIMEOUT) /\
  timer_fired 0 st2 = (disarm 0 st2, []).
Proof.
  assert (Hre : Forall (not_reissued "S")
                  [CreateSession "C" "S2" 5; JoinSession "D" "S2";
                   Signal "A" "S" "late"]).
  { repeat (apply Forall_cons; split;
            [simpl; try exact I; intros H; discriminate H|]).
    apply Forall_nil_2. }
  assert (Hnf : Forall (fun e => e <> TimerFired 0)
                  [CreateSession "C" "S2" 5; JoinSession "D" "S2";
                   Signal "A" "S" "late"]).
  { repeat (apply Forall_cons; split; [intros H; discriminate H|]).
    apply Forall_nil_2. }
  pose proof (disconnect_leaves_timer_armed
                (run [CreateSession "A" "S" 0] init).1 "A" "S"
                (Session "A" None false [] 0 0) (Timer "S" SESSION_TIMEOUT)
                (wf_run [CreateSession "A" "S" 0] init wf_init)
                eq_refl eq_refl)
    as (_ & Hgone & Harmed & _ & Hfire & _ & Hlater).
  destruct (Hlater _ Hre) as (_ & _ & _ & Hstill).
  destruct (Hstill Hnf) as [Harmed2 Hfire2].
  split; [exact Hgone|]. split; [exact Harmed|]. split; [exact Hfire|].
  split; [exact Harmed2 | exact Hfire2].
Defined.

(** C2 fails as stated: after [create-session] by A and the disconnect of
    A before any join, session S is deleted and its expiry timer is still
    armed, closing over S. *)
Lemma disconnect_does_not_cancel_timer :
  let st := (run [CreateSession "A" "S" 0] init).1 in
  let st' := (handle_disconnect "A" st).1 in
  (timeout <$> get "S" (sessions st)) = Some 0%nat /\
  get "S" (sessions st') = None /\
  timers st' !! 0%nat = Some (Timer "S" SESSION_TIMEOUT).
Proof. vm_compute. done. Qed.

(** What [disconnect] does when the first entry, in insertion order, that
    involves the socket is [(sid, s)]. *)
Lemma handle_disconnect_first (st : state) (h : handle)
    (pre : JsMap.t) (sid : string) (s : session) (post : JsMap.t) :
  NoDup (keys (sessions st)) ->
  sessions st = pre ++ (sid, s) :: post ->
  Forall (fun e => involves h e.2 = false) pre ->
  involves h s = true ->
  handle_disconnect h st =
    (with_sessions (pre ++ post) st,
     if truthy (other_side h s)
     then [io_to_emit (other_side h s) PeerDisconnected] else []).
Proof.
  intros Hnd Hst Hpre Hs.
  rewrite (handle_disconnect_found _ h sid s).
  - rewrite Hst in Hnd |- *. by rewrite delete_middle.
  - rewrite Hst. by apply disconnect_scan_first.
Qed.

(** C6, as the code has it: of the sessions that involve the socket that
    disconnects, as desktop or as mobile, ready or not, the first in
    insertion order is deleted, and it alone; [peer-disconnected] is emitted
    once, to the other participant of that session, when that handle is
    present, and nothing is emitted when it is absent.  Every other entry of
    the registry stays, among them later sessions of the same socket. *)
Theorem disconnect_deletes_first_match (st : state) (h : handle)
    (pre : JsMap.t) (sid : string) (s : session) (post : JsMap.t) :
  NoDup (keys (sessions st)) ->
  sessions st = pre ++ (sid, s) :: post ->
  Forall (fun e => involves h e.2 = false) pre ->
  involves h s = true ->
  let r := handle_disconnect h st in
  sessions r.1 = pre ++ post /\
  get sid (sessions r.1) = None /\
  (forall sid', sid' <> sid -> get sid' (sessions r.1) = get sid' (sessions st)) /\
  r.2 = (if truthy (other_side h s)
         then [io_to_emit (other_side h s) PeerDisconnected] else []) /\
  (valid_handle (desktop s) ->
   (forall m, mobile s = Some m -> valid_handle m) ->
   r.2 = match other_side h s with
         | Some peer => [io_to_emit (Some peer) PeerDisconnected]
         | None => []
         end).
Proof.
  intros Hnd Hst Hpre Hs r. subst r.
  assert (Hscan : disconnect_scan h (sessions st) = Some (sid, s)).
  { rewrite Hst. by apply disconnect_scan_first. }
  rewrite (handle_disconnect_first _ _ _ _ _ _ Hnd Hst Hpre Hs).
  cbn [fst snd with_sessions sessions].
  assert (Hdel : pre ++ post = delete sid (sessions st)).
  { rewrite Hst in Hnd |- *. by rewrite delete_middle. }
  split_and!.
  - done.
  - rewrite Hdel. apply get_delete_eq.
  - intros sid' Hne. rewrite Hdel. by apply get_delete_ne.
  - done.
  - intros Hd Hm. unfold other_side. case_bool_decide as Hh.
    + destruct (mobile s) as [m|] eqn:Hmob; [|done]. simpl.
      rewrite bool_decide_eq_false_2; [done|]. by apply Hm.
    + simpl. by rewrite bool_decide_eq_false_2.
Qed.

Lemma disconnect_deletes_first_match_witness :
  let st := (run [CreateSession "A" "S0" 0; CreateSession "C" "S" 1;
                  JoinSession "B" "S"] init).1 in
  let r := handle_disconnect "B" st in
  sessions r.1 = [("S0", Session "A" None false [] 0 0)] /\
  get "S" (sessions r.1) = None /\
  r.2 = [Emit (Some "C") PeerDisconnected].
Proof.
  assert (Hnd : NoDup ["S0"; "S"]).
  { apply NoDup_cons. split.
    - intros H. apply list_elem_of_singleton in H. discriminate H.
    - apply NoDup_singleton. }
  assert (Hpre : Forall (fun e : string * session => involves "B" e.2 = false)
                   [("S0", Session "A" None false [] 0 0)]).
  { apply Forall_cons. split; [reflexivity | apply Forall_nil_2]. }
  pose proof (disconnect_deletes_first_match
                (run [CreateSession "A" "S0" 0; CreateSession "C" "S" 1;
                      JoinSession "B" "S"] init).1 "B"
                [("S0", Session "A" None false [] 0 0)] "S"
                (Session "C" (Some "B") true [] 1 1) []
                Hnd eq_refl Hpre eq_refl)
    as (Hs & Hgone & _ & Hout & _).
  split; [exact Hs|]. split; [exact Hgone | exact Hout].
Defined.

(** C6 fails as stated: socket A is the desktop of the sessions S1 and S2,
    both in state created; when A disconnects, S2 is not deleted. *)
Lemma disconnect_skips_later_session :
  let st := (run [CreateSession "A" "S1" 0; CreateSession "A" "S2" 1] init).1 in
  let r := handle_disconnect "A" st in
  (desktop <$> get "S2" (sessions st)) = Some "A" /\
  (ready <$> get "S2" (sessions st)) = Some false /\
  get "S2" (sessions r.1) = Some (Session "A" None false [] 1 1) /\
  get "S1" (sessions r.1) = None.
Proof. vm_compute. done. Qed.

(** C10: [create-session] makes no test on the requester.  Whatever
    sessions the socket is in already, it arms a timer, stores a session
    with the socket as desktop under the new identifier, after all the
    entries the registry holds, and emits [session-created] to the socket.
    So a socket can be the desktop of several registered sessions; one
    disconnect of it then deletes one of them, the first in insertion order,
    and the others stay registered. *)
Theorem create_session_unrestricted :
  (forall st h uuid now,
     let s := Session h None false [] now (next_timer st) in
     let r := create_session h uuid now st in
     r.2 = [socket_emit h (SessionCreated uuid)] /\
     get uuid (sessions r.1) = Some s /\
     timers r.1 !! next_timer st = Some (Timer uuid SESSION_TIMEOUT) /\
     (get uuid (sessions st) = None ->
      sessions r.1 = sessions st ++ [(uuid, s)])) /\
  (forall st h sid1 sid2 now1 now2,
     NoDup (keys (sessions st)) ->
     get sid1 (sessions st) = None ->
     get sid2 (sessions st) = None ->
     sid1 <> sid2 ->
     let st2 := (run [CreateSession h sid1 now1; CreateSession h sid2 now2]
                     st).1 in
     let s1 := Session h None false [] now1 (next_timer st) in
     let s2 := Session h None false [] now2 (S (next_timer st)) in
     sessions st2 = sessions st ++ [(sid1, s1); (sid2, s2)] /\
     (disconnect_scan h (sessions st) = None ->
      sessions (handle_disconnect h st2).1 = sessions st ++ [(sid2, s2)] /\
      get sid1 (sessions (handle_disconnect h st2).1) = None /\
      get sid2 (sessions (handle_disconnect h st2).1) = Some s2)) /\
  (forall st h pre sid s post,
     NoDup (keys (sessions st)) ->
     sessions st = pre ++ (sid, s) :: post ->
     Forall (fun e => involves h e.2 = false) pre ->
     involves h s = true ->
     sessions (handle_disconnect h st).1 = pre ++ post /\
     size (sessions st) = S (size (sessions (handle_disconnect h st).1)) /\
     (forall k x, (k, x) ∈ post ->
        get k (sessions (handle_disconnect h st).1) = Some x)).
Proof.
  assert (Hcreate : forall st h uuid now,
            get uuid (sessions st) = None ->
            sessions (create_session h uuid now st).1 =
              sessions st ++ [(uuid, Session h None false [] now (next_timer st))]).
  { intros st h uuid now Hnone. simpl. by apply set_absent. }
  split_and!.
  - intros st h uuid now s r. subst s r. simpl. split_and!.
    + done.
    + apply get_set_eq.
    + apply lookup_insert_eq.
    + apply set_absent.
  - intros st h sid1 sid2 now1 now2 Hnd H1 H2 Hne st2 s1 s2.
    assert (Hst2 : sessions st2 = sessions st ++ [(sid1, s1); (sid2, s2)]).
    { subst st2. rewrite !run_cons. cbn [run fst step].
      rewrite Hcreate.
      - rewrite (Hcreate st) by done. by rewrite <- app_assoc.
      - rewrite (Hcreate st) by done.
        apply get_None_keys. unfold keys. rewrite fmap_app.
        rewrite not_elem_of_app. split; [by apply get_None_keys|].
        simpl. rewrite list_elem_of_singleton. congruence. }
    split; [done|]. intros Hscan.
    assert (Hnd2 : NoDup (keys (sessions st2))).
    { rewrite Hst2. unfold keys. rewrite fmap_app. simpl.
      apply NoDup_app. split_and!; [done| |].
      - intros k Hk Hk'. apply get_None_keys in H1, H2.
        apply elem_of_cons in Hk' as [->|Hk']; [done|].
        apply list_elem_of_singleton in Hk' as ->. done.
      - apply NoDup_cons. split; [|apply NoDup_singleton].
        rewrite list_elem_of_singleton. congruence. }
    assert (Hfirst : handle_disconnect h st2 =
              (with_sessions (sessions st ++ [(sid2, s2)]) st2, [])).
    { rewrite (handle_disconnect_first st2 h (sessions st) sid1 s1 [(sid2, s2)]).
      - subst s1. unfold other_side. simpl.
        by rewrite bool_decide_eq_true_2.
      - done.
      - done.
      - by apply disconnect_scan_None.
      - subst s1. unfold involves. simpl. by rewrite bool_decide_eq_true_2. }
    rewrite Hfirst. cbn [fst with_sessions sessions].
    assert (Hnd3 : NoDup (keys (sessions st ++ [(sid2, s2)]))).
    { unfold keys. rewrite fmap_app. simpl. apply NoDup_app.
      split_and!; [done| |apply NoDup_singleton].
      intros k Hk Hk'. apply list_elem_of_singleton in Hk' as ->.
      by apply get_None_keys in H2. }
    split_and!.
    + done.
    + apply get_None_keys. unfold keys. rewrite fmap_app, not_elem_of_app.
      split; [by apply get_None_keys|]. simpl.
      rewrite list_elem_of_singleton. done.
    + apply elem_of_get; [done|]. apply elem_of_app. right. left.
  - intros st h pre sid s post Hnd Hst Hpre Hs.
    rewrite (handle_disconnect_first _ _ _ _ _ _ Hnd Hst Hpre Hs).
    cbn [fst with_sessions sessions]. split_and!.
    + done.
    + unfold size. rewrite Hst, !length_app. simpl. lia.
    + intros k x Hin. apply elem_of_get.
      * rewrite Hst in Hnd. unfold keys in *. rewrite fmap_app in *.
        rewrite fmap_cons in Hnd. apply NoDup_app in Hnd as (Hn1 & Hn2 & Hn3).
        apply NoDup_cons in Hn3 as [_ Hn3]. apply NoDup_app.
        split_and!; [done| |done].
        intros y Hy Hy'. apply (Hn2 y Hy). by right.
      * apply elem_of_app. by right.
Qed.

Lemma create_session_unrestricted_witness :
  let st2 := (run [CreateSession "A" "S1" 0; CreateSession "A" "S2" 1]
                  init).1 in
  sessions st2 = [("S1", Session "A" None false [] 0 0);
                  ("S2", Session "A" None false [] 1 1)] /\
  sessions (handle_disconnect "A" st2).1 =
    [("S2", Session "A" None false [] 1 1)].
Proof.
  assert (Hne : "S1" <> "S2") by (intros H; discriminate H).
  pose proof (proj1 (proj2 create_session_unrestricted)
                init "A" "S1" "S2" 0%Z 1%Z (NoDup_nil_2 : NoDup (keys []))
                eq_refl eq_refl Hne) as (Hst2 & Hdisc).
  split; [exact Hst2|]. exact (proj1 (Hdisc eq_refl)).
Defined.

(** C8: socket A creates a session and nobody joins it.  Whatever happens
    until its expiry (signals, other sessions created, joined, expired or
    torn down, other sockets disconnecting), as long as A stays connected,
    the session is still registered when its timer fires; the firing emits
    [session-timeout] to A and nothing else and deletes the session.  From
    then on its identifier is unknown: [join-session] on it answers
    [session-not-found], [signal] on it does nothing, and it stays unknown
    through every later event. *)
Theorem unjoined_session_times_out (st : state) (A : handle) (sid : string)
    (now : Z) (es : list event) :
  reachable st ->
  fresh_uuid sid st ->
  Forall (quiet A sid (next_timer st)) es ->
  let t := next_timer st in
  let st1 := (create_session A sid now st).1 in
  let st2 := (run es st1).1 in
  let st3 := (timer_fired t st2).1 in
  get sid (sessions st1) = Some (Session A None false [] now t) /\
  (exists s, get sid (sessions st2) = Some s /\ desktop s = A) /\
  (timer_fired t st2).2 = [io_to_emit (Some A) SessionTimeout] /\
  get sid (sessions st3) = None /\
  (forall h, join_session h sid st3 = (st3, [socket_emit h SessionNotFound])) /\
  (forall h p, relay_signal h sid p st3 = (st3, [])) /\
  (forall es', Forall (not_reissued sid) es' ->
     get sid (sessions (run es' st3).1) = None).
Proof.
  intros Hreach Hfresh Hquiet t st1 st2 st3.
  pose proof (reachable_wf _ Hreach) as Hwf.
  assert (Haw1 : awaiting A sid t st1) by by apply awaiting_create.
  assert (Hwf1 : wf st1) by by apply wf_create.
  assert (Haw2 : awaiting A sid t st2) by by apply awaiting_run.
  pose proof (awaiting_fire _ _ _ _ Haw2) as Hfire.
  assert (Hgone : get sid (sessions st3) = None).
  { subst st3. rewrite Hfire. simpl. apply get_delete_eq. }
  split_and!.
  - subst st1. simpl. apply get_set_eq.
  - destruct Haw2 as ((s & Hs & Hd & _) & _). by exists s.
  - by rewrite Hfire.
  - done.
  - intros h. by apply join_session_unknown.
  - intros h p. by apply relay_signal_unknown.
  - intros es' Hes'. by apply unknown_run.
Qed.

Lemma unjoined_session_times_out_witness :
  let es := [Signal "A" "S" "offer"; CreateSession "C" "S2" 5;
             JoinSession "D" "S2"; Disconnect "C"; Signal "X" "S" "noise"] in
  let st2 := (run (CreateSession "A" "S" 0 :: es) init).1 in
  (timer_fired 0 st2).2 = [Emit (Some "A") SessionTimeout] /\
  get "S" (sessions (timer_fired 0 st2).1) = None /\
  join_session "B" "S" (timer_fired 0 st2).1 =
    ((timer_fired 0 st2).1, [Emit (Some "B") SessionNotFound]).
Proof.
  assert (Hfresh : fresh_uuid "S" init).
  { split; [reflexivity|]. intros t tm H. unfold init in H. simpl in H.
    rewrite lookup_empty in H. discriminate H. }
  assert (Hquiet : Forall (quiet "A" "S" (next_timer init))
                     [Signal "A" "S" "offer"; CreateSession "C" "S2" 5;
                      JoinSession "D" "S2"; Disconnect "C";
                      Signal "X" "S" "noise"]).
  { repeat (apply Forall_cons; split;
            [simpl; try exact I; intros H; discriminate H|]).
    apply Forall_nil_2. }
  pose proof (unjoined_session_times_out init "A" "S" 0
                [Signal "A" "S" "offer"; CreateSession "C" "S2" 5;
                 JoinSession "D" "S2"; Disconnect "C"; Signal "X" "S" "noise"]
                reachable_init Hfresh Hquiet)
    as (_ & _ & Hout & Hgone & Hjoin & _).
  split; [exact Hout|]. split; [exact Hgone | exact (Hjoin "B")].
Defined.

End Claims.

(** * Further properties of the handlers *)

(** ** The Map, once more *)

Section MoreMapFacts.
Import JsMap JsMapFacts.

(** With distinct keys, [set] leaves no trace of the value it replaces. *)
Lemma elem_of_set_inv k v k' v' m :
  NoDup (keys m) ->
  (k', v') ∈ set k v m ->
  (k', v') = (k, v) \/ ((k', v') ∈ m /\ k' <> k).
Proof.
  unfold keys. induction m as [|[k0 v0] m IH]; simpl.
  - intros _ H. apply list_elem_of_singleton in H. by left.
  - intros Hnd. apply NoDup_cons in Hnd as [Hk0 Hnd].
    case_bool_decide as Hk; intros H; apply elem_of_cons in H as [H|H].
    + left. congruence.
    + right. split; [by right|]. intros ->. apply Hk0. subst k0.
      apply list_elem_of_fmap. by exists (k, v').
    + right. injection H as -> ->. split; [left | done].
    + destruct (IH Hnd H) as [?|[? ?]]; [by left|]. right.
      split; [by right | done].
Qed.

Lemma size_set k v m :
  size (set k v m) = if has k m then size m else S (size m).
Proof.
  unfold size, has. induction m as [|[k0 v0] m IH]; simpl; [done|].
  case_bool_decide as Hk; simpl; [done|].
  rewrite IH. by destruct (get k m).
Qed.

Lemma size_delete_le k m : size (delete k m) <= size m.
Proof.
  unfold size. induction m as [|[k0 v0] m IH]; simpl; [done|].
  case_bool_decide; simpl; lia.
Qed.

Lemma size_delete_lt k v m : (k, v) ∈ m -> size (delete k m) < size m.
Proof.
  unfold size. induction m as [|[k0 v0] m IH]; simpl.
  - intros H. by apply elem_of_nil in H.
  - intros H. pose proof (size_delete_le k m) as Hle. unfold size in Hle.
    case_bool_decide as Hk; simpl; [lia|].
    apply elem_of_cons in H as [[= <- <-]|H]; [done|].
    apply IH in H. lia.
Qed.

(** Deleting the key appended last gives the Map back. *)
Lemma delete_snoc k v m : get k m = None -> delete k (m ++ [(k, v)]) = m.
Proof.
  induction m as [|[k0 v0] m IH]; simpl.
  - intros _. by rewrite bool_decide_eq_true_2.
  - case_bool_decide as Hk; [done|]. intros H. by rewrite IH.
Qed.

End MoreMapFacts.

(** ** Coherence is an invariant *)

Section Coherence.
Import JsMap JsMapFacts.

Lemma coherent_init : coherent init.
Proof.
  split; simpl.
  - intros k x H. by apply elem_of_nil in H.
  - intros k x H. by apply elem_of_nil in H.
  - intros k x e H. by apply elem_of_nil in H.
Qed.

Lemma coherent_delete sid st :
  coherent st -> coherent (with_sessions (delete sid (sessions st)) st).
Proof.
  intros [Hu Hr Ht]. split; simpl.
  - intros k x H. apply elem_of_delete in H as [H _]. eauto.
  - intros k x H. apply elem_of_delete in H as [H _]. eauto.
  - intros k x e H. apply elem_of_delete in H as [H _]. eauto.
Qed.

Lemma coherent_create h u now st :
  wf st -> coherent st -> coherent (create_session h u now st).1.
Proof.
  intros Hwf [Hu Hr Ht]. pose proof (wf_timeout _ Hwf) as Hlt.
  pose proof (wf_keys _ Hwf) as Hnd.
  split; simpl.
  - intros k x H Hx. apply (elem_of_set_inv _ _ _ _ _ Hnd) in H as [[= -> ->]|[H _]].
    + simpl. by rewrite lookup_insert_eq.
    + pose proof (Hlt _ _ H). rewrite lookup_insert_ne by lia. eauto.
  - intros k x H Hx. apply (elem_of_set_inv _ _ _ _ _ Hnd) in H as [[= -> ->]|[H _]].
    + done.
    + pose proof (Hlt _ _ H). rewrite lookup_insert_ne by lia. eauto.
  - intros k x e H He. apply (elem_of_set_inv _ _ _ _ _ Hnd) in H as [[= -> ->]|[H _]].
    + by apply elem_of_nil in He.
    + eauto.
Qed.

Lemma coherent_join h sid st :
  wf st -> coherent st -> coherent (join_session h sid st).1.
Proof.
  intros Hwf Hcoh. destruct (get sid (sessions st)) as [s|] eqn:Hs.
  2: { by rewrite join_session_unknown. }
  rewrite (join_session_known _ _ _ _ Hs). destruct Hcoh as [Hu Hr Ht].
  pose proof (wf_keys _ Hwf) as Hnd.
  pose proof (get_Some_elem_of _ _ _ Hs) as Hin.
  split; simpl.
  - intros k x H Hx. apply (elem_of_set_inv _ _ _ _ _ Hnd) in H as [[= -> ->]|[H Hne]].
    + done.
    + destruct (Hu _ _ H Hx) as [Hm Harmed]. split; [done|].
      rewrite lookup_delete_ne; [done|]. intros Heq.
      apply Hne. rewrite <- Heq in Harmed.
      by rewrite <- (wf_owner _ Hwf _ _ _ Hin Harmed).
  - intros k x H Hx. apply (elem_of_set_inv _ _ _ _ _ Hnd) in H as [[= -> ->]|[H Hne]].
    + simpl. by rewrite lookup_delete_eq.
    + destruct (Hr _ _ H Hx) as (Hm & Hp & Hnone). split_and!; [done|done|].
      apply lookup_delete_None. by right.
  - intros k x e H He. apply (elem_of_set_inv _ _ _ _ _ Hnd) in H as [[= -> ->]|[H _]].
    + by apply elem_of_nil in He.
    + eauto.
Qed.

Lemma coherent_signal h sid p st :
  wf st -> coherent st -> coherent (relay_signal h sid p st).1.
Proof.
  intros Hwf Hcoh. destruct (get sid (sessions st)) as [s|] eqn:Hs.
  2: { by rewrite relay_signal_unknown. }
  destruct (ready s) eqn:Hrs.
  { by rewrite (relay_signal_forwards _ _ _ _ _ Hs Hrs). }
  rewrite (relay_signal_buffers _ _ _ _ _ Hs Hrs). destruct Hcoh as [Hu Hr Ht].
  pose proof (wf_keys _ Hwf) as Hnd.
  pose proof (get_Some_elem_of _ _ _ Hs) as Hin.
  split; simpl.
  - intros k x H Hx. apply (elem_of_set_inv _ _ _ _ _ Hnd) in H as [[= -> ->]|[H _]].
    + simpl. eauto.
    + eauto.
  - intros k x H Hx. apply (elem_of_set_inv _ _ _ _ _ Hnd) in H as [[= -> ->]|[H _]].
    + simpl in Hx. congruence.
    + eauto.
  - intros k x e H He. apply (elem_of_set_inv _ _ _ _ _ Hnd) in H as [[= -> ->]|[H _]].
    + simpl in He |- *. apply elem_of_app in He as [He|He]; [eauto|].
      apply list_elem_of_singleton in He as ->. simpl.
      unfold other_side. case_bool_decide; [|by right].
      left. by destruct (Hu _ _ Hin Hrs).
    + eauto.
Qed.

Lemma coherent_disconnect h st :
  coherent st -> coherent (handle_disconnect h st).1.
Proof.
  intros Hcoh. unfold handle_disconnect.
  destruct (disconnect_scan h (sessions st)) as [[sid s]|]; [|done].
  by apply coherent_delete.
Qed.

Lemma coherent_timer t st :
  wf st -> coherent st -> coherent (timer_fired t st).1.
Proof.
  intros Hwf Hcoh. unfold timer_fired.
  destruct (timers st !! t) as [tm|] eqn:Htm; [|done].
  destruct Hcoh as [Hu Hr Ht]. pose proof (wf_keys _ Hwf) as Hnd.
  unfold session_timeout_callback, has. simpl.
  destruct (get (cb_session tm) (sessions st)) as [x0|] eqn:Hx0.
  - destruct (truthy (mobile x0)) eqn:Hm0; simpl.
    + split; simpl.
      * intros k x H Hx. destruct (Hu _ _ H Hx) as [Hm Harmed].
        split; [done|]. rewrite lookup_delete_ne; [done|]. intros Heq.
        rewrite <- Heq in Harmed. rewrite Htm in Harmed.
        injection Harmed as ->. simpl in Hx0.
        rewrite (elem_of_get _ _ _ Hnd H) in Hx0. injection Hx0 as <-.
        by rewrite Hm in Hm0.
      * intros k x H Hx. destruct (Hr _ _ H Hx) as (Hm & Hp & Hnone).
        split_and!; [done|done|]. apply lookup_delete_None. by right.
      * done.
    + split; simpl.
      * intros k x H Hx. apply elem_of_delete in H as [H Hne].
        destruct (Hu _ _ H Hx) as [Hm Harmed].
        split; [done|]. rewrite lookup_delete_ne; [done|]. intros Heq.
        rewrite <- Heq in Harmed. rewrite Htm in Harmed.
        injection Harmed as ->. done.
      * intros k x H Hx. apply elem_of_delete in H as [H Hne].
        destruct (Hr _ _ H Hx) as (Hm & Hp & Hnone).
        split_and!; [done|done|]. apply lookup_delete_None. by right.
      * intros k x e H. apply elem_of_delete in H as [H _]. eauto.
  - split; simpl.
    + intros k x H Hx. destruct (Hu _ _ H Hx) as [Hm Harmed].
      split; [done|]. rewrite lookup_delete_ne; [done|]. intros Heq.
      rewrite <- Heq in Harmed. rewrite Htm in Harmed.
      injection Harmed as ->. simpl in Hx0.
      by rewrite (elem_of_get _ _ _ Hnd H) in Hx0.
    + intros k x H Hx. destruct (Hr _ _ H Hx) as (Hm & Hp & Hnone).
      split_and!; [done|done|]. apply lookup_delete_None. by right.
    + done.
Qed.

Lemma coherent_step e st : wf st -> coherent st -> coherent (step e st).1.
Proof.
  intros Hwf Hcoh. destruct e; simpl.
  - by apply coherent_create.
  - by apply coherent_join.
  - by apply coherent_signal.
  - by apply coherent_disconnect.
  - by apply coherent_timer.
Qed.

Lemma coherent_run es st :
  wf st -> coherent st -> coherent (run es st).1.
Proof.
  revert st. induction es as [|e es IH]; intros st Hwf Hcoh; [done|].
  rewrite run_cons. cbn [fst]. apply IH; [by apply wf_step|].
  by apply coherent_step.
Qed.

Lemma reachable_coherent st : reachable st -> coherent st.
Proof. intros [es <-]. apply coherent_run; [apply wf_init | apply coherent_init]. Qed.

End Coherence.

(** ** What holds in every state the server reaches *)

Section Reached.
Import JsMap JsMapFacts.

(** X1: in every state the server reaches, a registered session is ready
    exactly when it has a mobile, and only a session that is not ready, so
    one without a mobile, has signals in its buffer. *)
Theorem ready_iff_mobile_attached (st : state) (sid : string) (s : session) :
  reachable st ->
  get sid (sessions st) = Some s ->
  (ready s = true <-> mobile s <> None) /\
  (ready s = true -> pendingSignals s = []) /\
  (pendingSignals s <> [] -> ready s = false /\ mobile s = None).
Proof.
  intros Hreach Hs. pose proof (reachable_coherent _ Hreach) as [Hu Hr _].
  apply get_Some_elem_of in Hs.
  assert (Hready : ready s = true -> mobile s <> None /\ pendingSignals s = []).
  { intros H. destruct (Hr _ _ Hs H) as (? & ? & _). done. }
  assert (Hunready : ready s = false -> mobile s = None).
  { intros H. by destruct (Hu _ _ Hs H). }
  split_and!.
  - split; [by intros H; apply Hready|].
    intros Hm. destruct (ready s); [done|]. by destruct Hm; apply Hunready.
  - by intros H; apply Hready.
  - intros Hp. destruct (ready s); [|by split; [|apply Hunready]].
    by destruct Hp; apply Hready.
Qed.

Lemma ready_iff_mobile_attached_witness :
  let st := (run [CreateSession "A" "S" 0; Signal "A" "S" "offer"] init).1 in
  let s := Session "A" None false [PendingSignal None "offer"] 0 0 in
  (ready s = true <-> mobile s <> None) /\
  (pendingSignals s <> [] -> ready s = false /\ mobile s = None).
Proof.
  pose proof (ready_iff_mobile_attached
                (run [CreateSession "A" "S" 0; Signal "A" "S" "offer"] init).1
                "S" (Session "A" None false [PendingSignal None "offer"] 0 0)
                (reachable_run _ _ reachable_init) eq_refl)
    as (Hiff & _ & Hbuf).
  split; [exact Hiff | exact Hbuf].
Defined.

(** X2: in every state the server reaches, the expiry a registered session
    stores is armed exactly while the session is not ready, and then it is
    armed with [SESSION_TIMEOUT] and closes over the session's own key; two
    registered sessions that are not ready never store the same timer. *)
Theorem expiry_armed_iff_not_ready (st : state) (sid : string) (s : session) :
  reachable st ->
  get sid (sessions st) = Some s ->
  timers st !! timeout s =
    (if ready s then None else Some (Timer sid SESSION_TIMEOUT)) /\
  (forall sid' s',
     get sid' (sessions st) = Some s' ->
     ready s = false -> ready s' = false ->
     timeout s' = timeout s -> sid' = sid).
Proof.
  intros Hreach Hs. pose proof (reachable_coherent _ Hreach) as [Hu Hr _].
  apply get_Some_elem_of in Hs. split.
  - destruct (ready s) eqn:Hrs.
    + by destruct (Hr _ _ Hs Hrs) as (_ & _ & ?).
    + by destruct (Hu _ _ Hs Hrs).
  - intros sid' s' Hs' Hrs Hrs' Heq. apply get_Some_elem_of in Hs'.
    destruct (Hu _ _ Hs Hrs) as [_ H1]. destruct (Hu _ _ Hs' Hrs') as [_ H2].
    rewrite Heq, H1 in H2. by injection H2.
Qed.

Lemma expiry_armed_iff_not_ready_witness :
  let st := (run [CreateSession "A" "S1" 0; CreateSession "C" "S2" 1;
                  JoinSession "B" "S1"] init).1 in
  timers st !! 0%nat = None /\
  timers st !! 1%nat = Some (Timer "S2" SESSION_TIMEOUT).
Proof.
  pose proof (expiry_armed_iff_not_ready
                (run [CreateSession "A" "S1" 0; CreateSession "C" "S2" 1;
                      JoinSession "B" "S1"] init).1
                "S1" (Session "A" (Some "B") true [] 0 0)
                (reachable_run _ _ reachable_init) eq_refl) as [H1 _].
  pose proof (expiry_armed_iff_not_ready
                (run [CreateSession "A" "S1" 0; CreateSession "C" "S2" 1;
                      JoinSession "B" "S1"] init).1
                "S2" (Session "C" None false [] 1 1)
                (reachable_run _ _ reachable_init) eq_refl) as [H2 _].
  split; [exact H1 | exact H2].
Defined.

(** X3: in every state the server reaches, the signals [join-session]
    flushes from the buffer are addressed to [null] or to the desktop of
    the session; a joiner that is not the desktop is sent none of them,
    whoever buffered them. *)
Theorem flushed_signals_bypass_joiner (st : state) (B : handle)
    (sid : string) (s : session) :
  reachable st ->
  get sid (sessions st) = Some s ->
  (forall em p,
     em ∈ (join_session B sid st).2 -> msg em = SignalMsg p ->
     room em = None \/ room em = Some (desktop s)) /\
  (B <> desktop s ->
   forall p, Emit (Some B) (SignalMsg p) ∉ (join_session B sid st).2).
Proof.
  intros Hreach Hs. pose proof (reachable_coherent _ Hreach) as [_ _ Ht].
  pose proof (get_Some_elem_of _ _ _ Hs) as Hin.
  assert (Hall : forall em p,
            em ∈ (join_session B sid st).2 -> msg em = SignalMsg p ->
            room em = None \/ room em = Some (desktop s)).
  { intros em p. rewrite (join_session_known _ _ _ _ Hs). simpl.
    intros Hem Hmsg.
    apply elem_of_cons in Hem as [->|Hem]; [done|].
    apply elem_of_cons in Hem as [->|Hem]; [done|].
    unfold flush_pending in Hem.
    apply list_elem_of_fmap in Hem as (e & -> & He). simpl.
    by apply (Ht sid s e). }
  split; [done|]. intros Hne p Hem.
  destruct (Hall _ p Hem eq_refl) as [H|H]; simpl in H; congruence.
Qed.

Lemma flushed_signals_bypass_joiner_witness :
  let st := (run [CreateSession "A" "S" 0; Signal "A" "S" "offer"] init).1 in
  Emit (Some "B") (SignalMsg "offer") ∉ (join_session "B" "S" st).2.
Proof.
  assert (Hne : "B" <> "A") by (intros H; discriminate H).
  exact (proj2 (flushed_signals_bypass_joiner
                  (run [CreateSession "A" "S" 0; Signal "A" "S" "offer"]
                       init).1
                  "B" "S" (Session "A" None false [PendingSignal None "offer"] 0 0)
                  (reachable_run _ _ reachable_init) eq_refl) Hne "offer").
Defined.

End Reached.

(** ** Handler by handler *)

Section Handlers.
Import JsMap JsMapFacts.

Lemma size_step e st :
  size (sessions (step e st).1) <=
  size (sessions st) + count_creates [e].
Proof.
  destruct e as [h u now|h sid|h sid p|h|t]; simpl.
  - rewrite size_set. destruct (has u (sessions st)); lia.
  - destruct (get sid (sessions st)) as [x|] eqn:Hx.
    + rewrite (join_session_known _ _ _ _ Hx). simpl. rewrite size_set.
      unfold has. rewrite Hx. lia.
    + rewrite join_session_unknown by done. simpl. lia.
  - destruct (get sid (sessions st)) as [x|] eqn:Hx.
    2: { rewrite relay_signal_unknown by done. simpl. lia. }
    destruct (ready x) eqn:Hr.
    { rewrite (relay_signal_forwards _ _ _ _ _ Hx Hr). simpl. lia. }
    rewrite (relay_signal_buffers _ _ _ _ _ Hx Hr). simpl. rewrite size_set.
    unfold has. rewrite Hx. lia.
  - unfold handle_disconnect.
    destruct (disconnect_scan h (sessions st)) as [[k x]|]; simpl; [|lia].
    pose proof (size_delete_le k (sessions st)). lia.
  - unfold timer_fired. destruct (timers st !! t) as [tm|]; simpl; [|lia].
    unfold session_timeout_callback, has. simpl.
    destruct (get (cb_session tm) (sessions st)) as [x|]; simpl; [|lia].
    destruct (truthy (mobile x)); simpl; [lia|].
    pose proof (size_delete_le (cb_session tm) (sessions st)). lia.
Qed.

(** X4: [GET /health] and [GET /] answer 200 and report the same number,
    the size of the registry.  [join-session] and [signal] never change
    that number, a [create-session] under an identifier that is not in use
    raises it by one, and over any sequence of events it grows by no more
    than the number of [create-session] events. *)
Theorem health_count_bounded_by_creates (st : state) :
  (health st).1 = 200 /\ (root_info st).1 = 200 /\
  health_sessions (health st).2 = info_activeSessions (root_info st).2 /\
  (forall h sid,
     health_sessions (health (join_session h sid st).1).2 =
     health_sessions (health st).2) /\
  (forall h sid p,
     health_sessions (health (relay_signal h sid p st).1).2 =
     health_sessions (health st).2) /\
  (forall h uuid now,
     get uuid (sessions st) = None ->
     health_sessions (health (create_session h uuid now st).1).2 =
     S (health_sessions (health st).2)) /\
  (forall es,
     health_sessions (health (run es st).1).2 <=
     health_sessions (health st).2 + count_creates es).
Proof.
  split_and!; try done.
  - intros h sid. simpl. destruct (get sid (sessions st)) as [x|] eqn:Hx.
    + rewrite (join_session_known _ _ _ _ Hx). simpl. rewrite size_set.
      unfold has. by rewrite Hx.
    + by rewrite join_session_unknown.
  - intros h sid p. simpl. destruct (get sid (sessions st)) as [x|] eqn:Hx.
    2: { by rewrite relay_signal_unknown. }
    destruct (ready x) eqn:Hr.
    { by rewrite (relay_signal_forwards _ _ _ _ _ Hx Hr). }
    rewrite (relay_signal_buffers _ _ _ _ _ Hx Hr). simpl. rewrite size_set.
    unfold has. by rewrite Hx.
  - intros h uuid now Hnone. simpl. rewrite size_set. unfold has.
    by rewrite Hnone.
  - intros es. simpl. revert st. induction es as [|e es IH]; intros st.
    + simpl. lia.
    + rewrite run_cons. cbn [fst]. specialize (IH (step e st).1).
      pose proof (size_step e st) as Hstep.
      assert (count_creates (e :: es) = count_creates [e] + count_creates es)
        as -> by (destruct e; simpl; lia).
      lia.
Qed.

Lemma health_count_bounded_by_creates_witness :
  health_sessions
    (health (create_session "A" "S" 0 init).1).2 = 1%nat.
Proof.
  exact (proj1 (proj2 (proj2 (proj2 (proj2 (proj2
           (health_count_bounded_by_creates init))))))
           "A" "S" 0%Z eq_refl).
Defined.

(** X5: once a [join-session] of B on a registered session has completed,
    the two sides talk to each other: a [signal] from the desktop is
    emitted to B, a [signal] from B is emitted to the desktop, each at once,
    once, and without any change of state. *)
Theorem relay_between_peers (st : state) (B : handle) (sid : string)
    (s : session) (p : payload) :
  get sid (sessions st) = Some s ->
  valid_handle (desktop s) ->
  valid_handle B ->
  let st' := (join_session B sid st).1 in
  relay_signal (desktop s) sid p st' = (st', [Emit (Some B) (SignalMsg p)]) /\
  (B <> desktop s ->
   relay_signal B sid p st' = (st', [Emit (Some (desktop s)) (SignalMsg p)])).
Proof.
  intros Hs Hd Hb st'. subst st'.
  rewrite (join_session_known _ _ _ _ Hs). cbn [fst].
  set (st' := State _ _ _).
  assert (Hs' : get sid (sessions st') = Some (joined_by B s)).
  { subst st'. simpl. apply get_set_eq. }
  split.
  - rewrite (relay_signal_forwards _ _ _ _ _ Hs' eq_refl).
    unfold other_side. simpl. rewrite bool_decide_eq_true_2 by done.
    simpl. by rewrite bool_decide_eq_false_2.
  - intros Hne. rewrite (relay_signal_forwards _ _ _ _ _ Hs' eq_refl).
    unfold other_side. simpl. rewrite bool_decide_eq_false_2 by done.
    simpl. by rewrite bool_decide_eq_false_2.
Qed.

Lemma relay_between_peers_witness :
  let st := (run [CreateSession "A" "S" 0] init).1 in
  let st' := (join_session "B" "S" st).1 in
  relay_signal "A" "S" "offer" st' = (st', [Emit (Some "B") (SignalMsg "offer")]) /\
  relay_signal "B" "S" "answer" st' = (st', [Emit (Some "A") (SignalMsg "answer")]).
Proof.
  assert (Ha : valid_handle "A") by (intros H; discriminate H).
  assert (Hb : valid_handle "B") by (intros H; discriminate H).
  assert (Hne : "B" <> "A") by (intros H; discriminate H).
  split.
  - exact (proj1 (relay_between_peers
                    (run [CreateSession "A" "S" 0] init).1 "B" "S"
                    (Session "A" None false [] 0 0) "offer" eq_refl Ha Hb)).
  - exact (proj2 (relay_between_peers
                    (run [CreateSession "A" "S" 0] init).1 "B" "S"
                    (Session "A" None false [] 0 0) "answer" eq_refl Ha Hb)
                 Hne).
Defined.

(** X6: the disconnect of a socket changes nothing and emits nothing
    exactly when no registered session has the socket as desktop or as
    mobile; otherwise the registry loses a session. *)
Theorem disconnect_is_noop_iff_stranger (st : state) (h : handle) :
  (handle_disconnect h st = (st, []) <->
   Forall (fun e => involves h e.2 = false) (sessions st)) /\
  (disconnect_scan h (sessions st) <> None ->
   size (sessions (handle_disconnect h st).1) < size (sessions st)).
Proof.
  assert (Hlt : disconnect_scan h (sessions st) <> None ->
            size (sessions (handle_disconnect h st).1) < size (sessions st)).
  { intros Hscan.
    destruct (disconnect_scan h (sessions st)) as [[sid s]|] eqn:Hfound;
      [|done].
    rewrite (handle_disconnect_found _ _ _ _ Hfound). simpl.
    apply disconnect_scan_elem_of in Hfound as [Hin _].
    by apply (size_delete_lt _ s). }
  split; [|done]. split.
  - intros Hnoop. apply disconnect_scan_None.
    destruct (disconnect_scan h (sessions st)) as [[sid s]|] eqn:Hfound;
      [|done].
    assert (Some (sid, s) <> @None (string * session)) as Hne by done.
    apply Hlt in Hne. rewrite Hnoop in Hne. simpl in Hne. lia.
  - intros Hall. apply handle_disconnect_none. by apply disconnect_scan_None.
Qed.

Lemma disconnect_is_noop_iff_stranger_witness :
  let st := (run [CreateSession "A" "S" 0; JoinSession "B" "S"] init).1 in
  handle_disconnect "X" st = (st, []) /\
  size (sessions (handle_disconnect "B" st).1) < size (sessions st).
Proof.
  assert (Hx : Forall (fun e : string * session => involves "X" e.2 = false)
                 [("S", Session "A" (Some "B") true [] 0 0)]).
  { apply Forall_cons. split; [reflexivity | apply Forall_nil_2]. }
  assert (Hb : Some ("S", Session "A" (Some "B") true [] 0 0)
               <> @None (string * session)) by (intros H; discriminate H).
  split.
  - exact (proj2 (proj1 (disconnect_is_noop_iff_stranger
                           (run [CreateSession "A" "S" 0; JoinSession "B" "S"]
                                init).1 "X")) Hx).
  - exact (proj2 (disconnect_is_noop_iff_stranger
                    (run [CreateSession "A" "S" 0; JoinSession "B" "S"]
                         init).1 "B") Hb).
Defined.

(** X7: [join-session] and [signal] register no session, unregister none
    and keep the order of the registry; a session other than the one they
    name is left as it is; [signal] touches no timer and [join-session]
    arms none. *)
Theorem join_and_signal_keep_other_sessions (st : state) (h : handle)
    (sid : string) (p : payload) :
  let j := (join_session h sid st).1 in
  let r := (relay_signal h sid p st).1 in
  keys (sessions j) = keys (sessions st) /\
  keys (sessions r) = keys (sessions st) /\
  (forall sid', sid' <> sid ->
     get sid' (sessions j) = get sid' (sessions st) /\
     get sid' (sessions r) = get sid' (sessions st)) /\
  timers r = timers st /\
  (forall t tm, timers j !! t = Some tm -> timers st !! t = Some tm) /\
  next_timer j = next_timer st /\ next_timer r = next_timer st.
Proof.
  intros j r. subst j r.
  destruct (get sid (sessions st)) as [x|] eqn:Hx.
  - rewrite (join_session_known _ _ _ _ Hx).
    assert (Hr : exists x',
              (relay_signal h sid p st).1 = st \/
              (relay_signal h sid p st).1 =
                with_sessions (set sid x' (sessions st)) st).
    { destruct (ready x) eqn:Hrx.
      - exists x. left. by rewrite (relay_signal_forwards _ _ _ _ _ Hx Hrx).
      - eexists. right. by rewrite (relay_signal_buffers _ _ _ _ _ Hx Hrx). }
    destruct Hr as [x' [-> | ->]]; simpl; rewrite ?keys_set; unfold has;
      rewrite Hx; split_and!; try done.
    + intros sid' Hne. by rewrite get_set_ne.
    + intros t tm H. by apply lookup_delete_Some in H as [_ H].
    + intros sid' Hne. by rewrite !get_set_ne.
    + intros t tm H. by apply lookup_delete_Some in H as [_ H].
  - rewrite join_session_unknown, relay_signal_unknown by done. done.
Qed.

End Handlers.

(** ** Which event emits what, and whole lives of a session *)

Section Lives.
Import JsMap JsMapFacts.

(** X8: every message the server emits is accounted for by the event
    handled.  [session-created] goes to the socket of a [create-session];
    [session-not-found] to the socket of a [join-session] on an unknown
    identifier; [mobile-connected] and [connection-successful] to the
    desktop and to the socket of a [join-session] on a registered session; a
    [signal] message is either a [signal] event on a ready session, emitted
    to the side opposite to the sender, which is present, or an entry of
    the buffer flushed by a [join-session]; [peer-disconnected] goes to the
    present other side of the session a [disconnect] found;
    [session-timeout] goes to the desktop of a session without mobile whose
    expiry fired. *)
Theorem emission_provenance (st : state) (e : event) (em : emission) :
  em ∈ (step e st).2 ->
  match msg em with
  | SessionCreated u =>
      exists h now, e = CreateSession h u now /\ room em = Some h
  | SessionNotFound =>
      exists h sid,
        e = JoinSession h sid /\ get sid (sessions st) = None /\
        room em = Some h
  | MobileConnected =>
      exists h sid s,
        e = JoinSession h sid /\ get sid (sessions st) = Some s /\
        room em = Some (desktop s)
  | ConnectionSuccessful =>
      exists h sid s,
        e = JoinSession h sid /\ get sid (sessions st) = Some s /\
        room em = Some h
  | SignalMsg p =>
      (exists h sid s,
         e = Signal h sid p /\ get sid (sessions st) = Some s /\
         ready s = true /\ room em = other_side h s /\
         truthy (room em) = true) \/
      (exists h sid s b,
         e = JoinSession h sid /\ get sid (sessions st) = Some s /\
         b ∈ pendingSignals s /\ room em = targetId b /\ p = data b)
  | PeerDisconnected =>
      exists h sid s,
        e = Disconnect h /\
        disconnect_scan h (sessions st) = Some (sid, s) /\
        room em = other_side h s /\ truthy (room em) = true
  | SessionTimeout =>
      exists t tm s,
        e = TimerFired t /\ timers st !! t = Some tm /\
        get (cb_session tm) (sessions st) = Some s /\
        truthy (mobile s) = false /\ room em = Some (desktop s)
  end.
Proof.
  destruct e as [h u now|h sid|h sid p|h|t]; simpl.
  - intros H. apply list_elem_of_singleton in H as ->. simpl. by exists h, now.
  - destruct (get sid (sessions st)) as [x|] eqn:Hx.
    + rewrite (join_session_known _ _ _ _ Hx). simpl. intros H.
      apply elem_of_cons in H as [->|H]; [simpl; by exists h, sid, x|].
      apply elem_of_cons in H as [->|H]; [simpl; by exists h, sid, x|].
      unfold flush_pending in H.
      apply list_elem_of_fmap in H as (b & -> & Hb). simpl.
      right. by exists h, sid, x, b.
    + rewrite join_session_unknown by done. simpl. intros H.
      apply list_elem_of_singleton in H as ->. simpl. by exists h, sid.
  - destruct (get sid (sessions st)) as [x|] eqn:Hx.
    2: { rewrite relay_signal_unknown by done. simpl. intros H.
         by apply elem_of_nil in H. }
    destruct (ready x) eqn:Hr.
    2: { rewrite (relay_signal_buffers _ _ _ _ _ Hx Hr). simpl. intros H.
         by apply elem_of_nil in H. }
    rewrite (relay_signal_forwards _ _ _ _ _ Hx Hr). simpl.
    destruct (truthy (other_side h x)) eqn:Ht; intros H.
    + apply list_elem_of_singleton in H as ->. simpl.
      left. by exists h, sid, x.
    + by apply elem_of_nil in H.
  - destruct (disconnect_scan h (sessions st)) as [[sid s]|] eqn:Hscan.
    2: { rewrite handle_disconnect_none by done. simpl. intros H.
         by apply elem_of_nil in H. }
    rewrite (handle_disconnect_found _ _ _ _ Hscan). simpl.
    destruct (truthy (other_side h s)) eqn:Ht; intros H.
    + apply list_elem_of_singleton in H as ->. simpl. by exists h, sid, s.
    + by apply elem_of_nil in H.
  - unfold timer_fired. destruct (timers st !! t) as [tm|] eqn:Htm.
    2: { simpl. intros H. by apply elem_of_nil in H. }
    unfold session_timeout_callback, has. simpl.
    destruct (get (cb_session tm) (sessions st)) as [x|] eqn:Hx.
    2: { simpl. intros H. by apply elem_of_nil in H. }
    destruct (truthy (mobile x)) eqn:Hm; simpl; intros H.
    + by apply elem_of_nil in H.
    + apply list_elem_of_singleton in H as ->. simpl. by exists t, tm, x.
Qed.

Lemma emission_provenance_witness :
  let st := (run [CreateSession "A" "S" 0; JoinSession "B" "S"] init).1 in
  exists h sid s,
    Disconnect "A" = Disconnect h /\
    disconnect_scan h (sessions st) = Some (sid, s) /\
    Some "B" = other_side h s /\ truthy (Some "B") = true.
Proof.
  apply (emission_provenance
           (run [CreateSession "A" "S" 0; JoinSession "B" "S"] init).1
           (Disconnect "A") (Emit (Some "B") PeerDisconnected)).
  simpl. apply list_elem_of_singleton. reflexivity.
Defined.

(** X9: a session that is created and expires without anything else
    happening leaves the server as it found it: the registry and the armed
    timers are those from before, and only the counter of timer identifiers
    has moved.  The desktop got [session-created] and then
    [session-timeout]. *)
Theorem create_then_expire_restores (st : state) (A : handle) (sid : string)
    (now : Z) :
  reachable st ->
  get sid (sessions st) = None ->
  run [CreateSession A sid now; TimerFired (next_timer st)] st =
    (State (sessions st) (timers st) (S (next_timer st)),
     [Emit (Some A) (SessionCreated sid); Emit (Some A) SessionTimeout]).
Proof.
  intros Hreach Hnone. pose proof (reachable_wf _ Hreach) as Hwf.
  assert (Hfree : timers st !! next_timer st = None).
  { destruct (timers st !! next_timer st) as [tm|] eqn:Ht; [|done].
    apply (wf_armed _ Hwf) in Ht. lia. }
  set (s0 := Session A None false [] now (next_timer st)).
  set (st1 := State (sessions st ++ [(sid, s0)])
                    (<[next_timer st := Timer sid SESSION_TIMEOUT]> (timers st))
                    (S (next_timer st))).
  assert (Hst1 : (create_session A sid now st).1 = st1).
  { simpl. unfold with_sessions. simpl. by rewrite set_absent. }
  assert (Hs0 : get sid (sessions (disarm (next_timer st) st1)) = Some s0).
  { simpl. rewrite <- (set_absent sid s0) by done. apply get_set_eq. }
  assert (Hfire : timer_fired (next_timer st) st1 =
            (State (sessions st) (timers st) (S (next_timer st)),
             [Emit (Some A) SessionTimeout])).
  { unfold timer_fired. simpl. rewrite lookup_insert_eq. simpl.
    rewrite (callback_expires _ sid s0 Hs0 eq_refl).
    unfold with_sessions. simpl.
    by rewrite delete_snoc, delete_insert_id. }
  rewrite !run_cons. cbn [run step]. rewrite Hst1, Hfire. done.
Qed.

Lemma create_then_expire_restores_witness :
  let st := (run [CreateSession "C" "S0" 0; JoinSession "D" "S0"] init).1 in
  run [CreateSession "A" "S" 7; TimerFired 1] st =
    (State (sessions st) (timers st) 2,
     [Emit (Some "A") (SessionCreated "S"); Emit (Some "A") SessionTimeout]).
Proof.
  exact (create_then_expire_restores
           (run [CreateSession "C" "S0" 0; JoinSession "D" "S0"] init).1
           "A" "S" 7 (reachable_run _ _ reachable_init) eq_refl).
Defined.

(** X10: a session that is created, joined and then torn down by the
    disconnect of one of its two sockets leaves the server as it found it,
    provided the socket that disconnects is in no older session: the
    registry and the armed timers are those from before.  The socket that
    stays gets [peer-disconnected]. *)
Theorem pair_then_disconnect_restores (st : state) (A B X : handle)
    (sid : string) (now : Z) :
  reachable st ->
  get sid (sessions st) = None ->
  valid_handle A -> valid_handle B ->
  X = A \/ X = B ->
  Forall (fun e => involves X e.2 = false) (sessions st) ->
  run [CreateSession A sid now; JoinSession B sid; Disconnect X] st =
    (State (sessions st) (timers st) (S (next_timer st)),
     [Emit (Some A) (SessionCreated sid);
      Emit (Some A) MobileConnected;
      Emit (Some B) ConnectionSuccessful;
      Emit (Some (if bool_decide (X = A) then B else A)) PeerDisconnected]).
Proof.
  intros Hreach Hnone Ha Hb HX Hpre. pose proof (reachable_wf _ Hreach) as Hwf.
  assert (Hfree : timers st !! next_timer st = None).
  { destruct (timers st !! next_timer st) as [tm|] eqn:Ht; [|done].
    apply (wf_armed _ Hwf) in Ht. lia. }
  set (s0 := Session A None false [] now (next_timer st)).
  set (st1 := (create_session A sid now st).1).
  assert (Hs1 : get sid (sessions st1) = Some s0).
  { subst st1. simpl. apply get_set_eq. }
  assert (Hst1 : sessions st1 = sessions st ++ [(sid, s0)]).
  { subst st1. simpl. by apply set_absent. }
  set (st2 := (join_session B sid st1).1).
  assert (Hst2 : st2 = State (sessions st ++ [(sid, joined_by B s0)])
                             (timers st) (S (next_timer st))).
  { subst st2. rewrite (join_session_known _ _ _ _ Hs1). cbn [fst].
    rewrite Hst1. subst st1. simpl.
    rewrite delete_insert_id by done. f_equal.
    replace (sessions st ++ [(sid, s0)]) with (sessions st ++ (sid, s0) :: [])
      by done.
    rewrite set_present; [done|]. by apply get_None_keys. }
  assert (Hinv : involves X (joined_by B s0) = true).
  { unfold involves. simpl. destruct HX as [->| ->].
    - by rewrite bool_decide_eq_true_2.
    - rewrite (bool_decide_eq_true_2 (Some B = Some B)) by done.
      by rewrite orb_true_r. }
  assert (Hnd2 : NoDup (keys (sessions st2))).
  { rewrite Hst2. simpl. unfold keys. rewrite fmap_app. simpl.
    apply NoDup_app. split_and!; [by apply wf_keys| |apply NoDup_singleton].
    intros k Hk Hk'. apply list_elem_of_singleton in Hk' as ->.
    by apply get_None_keys in Hnone. }
  assert (Hdisc : handle_disconnect X st2 =
            (with_sessions (sessions st ++ []) st2,
             if truthy (other_side X (joined_by B s0))
             then [io_to_emit (other_side X (joined_by B s0)) PeerDisconnected]
             else [])).
  { apply (handle_disconnect_first st2 X (sessions st) sid
             (joined_by B s0) []); [done| |done|done].
    by rewrite Hst2. }
  assert (Hother : other_side X (joined_by B s0) =
                   Some (if bool_decide (X = A) then B else A)).
  { unfold other_side. simpl. by case_bool_decide. }
  assert (Htruthy : truthy (other_side X (joined_by B s0)) = true).
  { rewrite Hother. simpl. case_bool_decide; by rewrite bool_decide_eq_false_2. }
  rewrite !run_cons. cbn [run step].
  fold st1. fold st2. rewrite Hdisc, Htruthy, Hother. cbn [fst snd].
  rewrite app_nil_r. rewrite Hst2 at 1. unfold with_sessions. cbn [timers next_timer].
  f_equal. subst st2. rewrite (join_session_known _ _ _ _ Hs1). done.
Qed.

Lemma pair_then_disconnect_restores_witness :
  run [CreateSession "A" "S" 0; JoinSession "B" "S"; Disconnect "A"] init =
    (State [] ∅ 1,
     [Emit (Some "A") (SessionCreated "S");
      Emit (Some "A") MobileConnected;
      Emit (Some "B") ConnectionSuccessful;
      Emit (Some "B") PeerDisconnected]).
Proof.
  assert (Ha : valid_handle "A") by (intros H; discriminate H).
  assert (Hb : valid_handle "B") by (intros H; discriminate H).
  exact (pair_then_disconnect_restores init "A" "B" "A" "S" 0
           reachable_init eq_refl Ha Hb (or_introl eq_refl)
           (Forall_nil_2 _)).
Defined.

End Lives.
